(** * The A2A task engine of adcp ([A2aServer]) in Rocq

    A shallow embedding of [src/transport/a2a/server.ts] (class [A2aServer])
    and of the types it uses ([src/transport/a2a/types.ts],
    [src/core/types.ts], [src/core/errors.ts]), followed by the properties
    of the task life cycle, the skill-invocation parser, the event fan-out
    and the webhook dispatch.

    Conventions of the embedding.
    - The server object is a record [Server]; every method is a function in
      the monad [M] (state plus JavaScript exceptions: the state written
      before a [throw] is kept, as in JavaScript).
    - [uuid()] and [new Date().toISOString()] are inputs of the methods.
    - [Set<SseListener>] objects live in a store [sets] and are named by
      references, because the closure returned by [subscribeToTask] keeps
      the reference of the [Set] it was created with.
    - A listener is a callback: it has an identity and may throw; what it is
      called with is recorded in the log [delivered].  Listeners are
      observers: they do not call back into the server.
    - [sendWebhook] only logs its payload in the source; the log is the
      field [webhooks].
    - A response object is given by the content of its fields when it is
      built ([response_of]).  It shares the [messages] and [artifacts]
      arrays of its task; what its holder reads from it later is
      [read_response].
    - [processTask] suspends once, at [await this.executeSkill(...)], and
      nothing before that point writes to the server: a call of
      [createTask] therefore records the started execution in [pending],
      and the whole body of [processTask] runs when the execution is
      resumed ([OpExecDone]) with the outcome of the handler call. *)

From stdpp Require Import base gmap strings list fin_maps pretty.
From Stdlib Require Import Ascii.

Local Open Scope string_scope.
Local Open Scope list_scope.

(* ===================================================================== *)
(** ** JavaScript values and primitives *)
(* ===================================================================== *)

(** [unknown] / [Record<string, unknown>] payloads. *)
#[local] Unset Elimination Schemes.
Inductive JValue : Type :=
| JUndefined
| JNull
| JBool (b : bool)
| JNum (n : Z)
| JStr (s : string)
| JArr (xs : list JValue)
| JObj (fields : gmap string JValue).
#[local] Set Elimination Schemes.

Abbreviation JRecord := (gmap string JValue).

Module Js.

(** Truthiness of a string: [if (context)], [request.skill || 'default']. *)
Definition truthy_string (s : string) : bool :=
  match s with EmptyString => false | String _ _ => true end.

(** Truthiness of a value: [parameters.deliver_to || {...}]. *)
Definition truthy (v : JValue) : bool :=
  match v with
  | JUndefined | JNull => false
  | JBool b => b
  | JNum n => negb (n =? 0)%Z
  | JStr s => truthy_string s
  | JArr _ | JObj _ => true
  end.

(** [o.k] on a record: [undefined] when the key is absent. *)
Definition field (o : JRecord) (k : string) : JValue :=
  default JUndefined (o !! k).

(** [{ ...a, ...b }]: the keys of [b] win. *)
Definition spread (a b : JRecord) : JRecord := b ∪ a.

(** [{ k1: r.k1, ..., kn: r.kn }]. *)
Definition pick (keys : list string) (r : JRecord) : JRecord :=
  list_to_map ((λ k, (k, field r k)) <$> keys).

Definition lower_char (c : ascii) : ascii :=
  let n := nat_of_ascii c in
  if (65 <=? n)%nat && (n <=? 90)%nat then ascii_of_nat (n + 32) else c.

(** [String.prototype.toLowerCase], on the ASCII letters. *)
Fixpoint toLowerCase (s : string) : string :=
  match s with
  | EmptyString => EmptyString
  | String c s' => String (lower_char c) (toLowerCase s')
  end.

(** [String.prototype.includes]. *)
Fixpoint includes (s needle : string) : bool :=
  String.prefix needle s ||
  match s with
  | EmptyString => false
  | String _ s' => includes s' needle
  end.

(** A [Set] keeps insertion order and holds a value once. *)
Definition set_add `{EqDecision A} (x : A) (l : list A) : list A :=
  if decide (x ∈ l) then l else l ++ [x].

Definition set_delete `{EqDecision A} (x : A) (l : list A) : list A :=
  filter (λ y, y ≠ x) l.

End Js.

(* ===================================================================== *)
(** ** Data model ([core/types.ts], [transport/a2a/types.ts]) *)
(* ===================================================================== *)

Inductive TaskStatus : Type :=
| completed | working | submitted | input_required | failed
| canceled | rejected | auth_required | unknown.

#[global] Instance TaskStatus_eq_dec : EqDecision TaskStatus.
Proof. solve_decision. Defined.

(** The terminal states of the specification. *)
Definition is_terminal (st : TaskStatus) : bool :=
  match st with
  | completed | failed | canceled => true
  | _ => false
  end.

Inductive MessagePart : Type :=
| TextPart (text : string)
| DataPart (data : JRecord) (mimeType : option string)
| FilePart (uri : string) (mimeType : option string) (name : option string).

Inductive Role : Type := user | agent.

Record A2aMessageMetadata : Type := {
  mm_timestamp : option string;
  mm_message_id : option string;
  mm_correlation_id : option string;
}.

Record A2aMessage : Type := {
  role : Role;
  parts : list MessagePart;
  msg_metadata : option A2aMessageMetadata;
}.

Record A2aArtifactMetadata : Type := {
  artifact_id : option string;
  am_created_at : option string;
}.

(** [type: 'artifact'] is constant and left out. *)
Record A2aArtifact : Type := {
  art_name : option string;
  art_parts : list MessagePart;
  art_metadata : option A2aArtifactMetadata;
}.

(** [progress] is never written by the server and left out. *)
Record A2aTaskStatus : Type := {
  state : TaskStatus;
  st_message : option string;
  st_timestamp : string;
}.

Record A2aTaskMetadata : Type := {
  tm_skill : option string;
  tm_principal_id : option string;
  tm_context_id : option string;
}.

Record A2aTask : Type := {
  id : string;
  status : A2aTaskStatus;
  messages : list A2aMessage;
  artifacts : list A2aArtifact;
  created_at : string;
  updated_at : string;
  metadata : A2aTaskMetadata;
}.

Inductive A2aWebhookEvent : Type :=
| ev_status_change | ev_completed | ev_failed | ev_input_required
| ev_artifact_created.

(** [authentication] is never read by the server and left out. *)
Record A2aWebhookConfig : Type := {
  url : string;
  events : option (list A2aWebhookEvent);
}.

Record A2aTaskRequestMetadata : Type := {
  rm_correlation_id : option string;
  rm_context_id : option string;
  rm_principal_id : option string;
}.

Record A2aTaskRequest : Type := {
  req_skill : option string;
  req_parts : list MessagePart;
  req_metadata : option A2aTaskRequestMetadata;
  req_webhook : option A2aWebhookConfig;
}.

Record A2aTaskResponse : Type := {
  task_id : string;
  resp_status : A2aTaskStatus;
  resp_messages : option (list A2aMessage);
  resp_artifacts : option (list A2aArtifact);
}.

Record A2aWebhookPayload : Type := {
  wp_task_id : string;
  wp_event : A2aWebhookEvent;
  wp_status : A2aTaskStatus;
  wp_timestamp : string;
  wp_data : option JRecord;
}.

Inductive SseEventType : Type :=
| sse_status | sse_message | sse_artifact | sse_progress | sse_error
| sse_complete.

(** The [data] of an event, by the interface that types it. *)
Inductive SseData : Type :=
| StatusData (s : A2aTaskStatus)
| MessageData (m : A2aMessage)
| ArtifactData (a : A2aArtifact)
| ErrorData (code message : string)
| CompleteData (r : A2aTaskResponse).

Record SseEvent : Type := {
  ev_type : SseEventType;
  ev_data : SseData;
  ev_timestamp : string;
}.

Record FileRef : Type := {
  uri : string;
  mimeType : option string;
  name : option string;
}.

Record A2aSkillInvocation : Type := {
  skill : string;
  parameters : JRecord;
  context : option string;
  files : option (list FileRef);
}.

(** [Principal]: only [principal.id] is read. *)
Record Principal : Type := { principal_id : string }.

(* ===================================================================== *)
(** ** The skill-invocation parser *)
(* ===================================================================== *)

(** The three accumulators of the loop of [parseSkillInvocation]. *)
Record ParseAcc : Type := {
  acc_parameters : JRecord;
  acc_context : option string;
  acc_files : list FileRef;
}.

(** One turn of [for (const part of request.parts) switch (part.type)]. *)
Definition parse_part (acc : ParseAcc) (part : MessagePart) : ParseAcc :=
  match part with
  | TextPart text =>
      {| acc_parameters := acc_parameters acc;
         acc_context := Some text;
         acc_files := acc_files acc |}
  | DataPart data _ =>
      {| acc_parameters := Js.spread (acc_parameters acc) data;
         acc_context := acc_context acc;
         acc_files := acc_files acc |}
  | FilePart u m n =>
      {| acc_parameters := acc_parameters acc;
         acc_context := acc_context acc;
         acc_files := acc_files acc ++ [{| uri := u; mimeType := m; name := n |}] |}
  end.

Definition parse_init : ParseAcc :=
  {| acc_parameters := ∅; acc_context := None; acc_files := [] |}.

Definition request_skill (request : A2aTaskRequest) : string :=
  match req_skill request with
  | Some s => if Js.truthy_string s then s else "default"
  | None => "default"
  end.

Definition parseSkillInvocation (request : A2aTaskRequest) : A2aSkillInvocation :=
  let acc := foldl parse_part parse_init (req_parts request) in
  {| skill := request_skill request;
     parameters := acc_parameters acc;
     context := acc_context acc;
     files := match acc_files acc with [] => None | fs => Some fs end |}.

(* ===================================================================== *)
(** ** Errors, handlers and [executeSkill] *)
(* ===================================================================== *)

(** What a [catch (error)] can receive: an [AdcpError] (it extends
    [Error]), another [Error], or a value that is not an [Error]. *)
Inductive Thrown : Type :=
| AdcpError (code message : string)
| JsError (message : string)
| NonError.

#[global] Instance Thrown_eq_dec : EqDecision Thrown.
Proof. solve_decision. Defined.

Inductive Res (A : Type) : Type :=
| Ok (a : A)
| Throw (e : Thrown).
Arguments Ok {A} a.
Arguments Throw {A} e.

(** [ERROR_CODES] of [core/errors.ts]: the values of [ErrorCode]. *)
Definition ERROR_CODES : list string :=
  [ "AUTH_REQUIRED"; "AUTH_INVALID"; "AUTH_EXPIRED"; "UNAUTHORIZED";
    "FORBIDDEN"; "PRINCIPAL_NOT_FOUND"; "DEPLOYMENT_UNAUTHORIZED";
    "SIGNAL_AGENT_SEGMENT_NOT_FOUND"; "AGENT_NOT_FOUND";
    "AGENT_ACCESS_DENIED"; "ACTIVATION_FAILED"; "ALREADY_ACTIVATED";
    "INVALID_PRICING_MODEL";
    "PRODUCT_NOT_FOUND"; "FORMAT_INCOMPATIBLE"; "BUDGET_INSUFFICIENT";
    "TARGETING_TOO_NARROW"; "POLICY_VIOLATION"; "INVALID_PRICING_OPTION";
    "MEDIA_BUY_NOT_FOUND"; "PACKAGE_NOT_FOUND"; "CREATIVE_NOT_FOUND";
    "INVALID_DATE_RANGE"; "CONTEXT_REQUIRED"; "INVALID_STATUS_FILTER";
    "INVALID_FORMAT"; "FORMAT_NOT_FOUND"; "ASSET_PROCESSING_FAILED";
    "BRAND_SAFETY_VIOLATION"; "FORMAT_MISMATCH"; "MISSING_REQUIRED_ASSET";
    "INVALID_ASSET_TYPE"; "ASSET_TOO_LARGE"; "INVALID_DIMENSIONS";
    "INVALID_DURATION"; "MANIFEST_VALIDATION_FAILED";
    "INVALID_REQUEST"; "INTERNAL_ERROR"; "SERVICE_UNAVAILABLE";
    "RATE_LIMITED"; "TIMEOUT"; "NOT_IMPLEMENTED" ].

(** [config.handlers]: which protocol handlers are configured. *)
Record A2aServerConfig : Type := {
  has_signals : bool;
  has_mediaBuy : bool;
  has_creative : bool;
}.

Inductive Protocol : Type := Signals | MediaBuy | Creative.

Inductive HandlerMethod : Type :=
| getSignals | activateSignal
| getProducts | createMediaBuy | updateMediaBuy | getMediaBuyDelivery
| syncCreatives
| buildCreative | previewCreative.

(** What a handler method resolves to: [BaseResponse] plus its own fields. *)
Record HandlerResult : Type := {
  hr_status : option TaskStatus;
  hr_message : string;
  hr_fields : JRecord;
}.

(** The handlers are collaborators of the engine: a call either resolves
    to a result or rejects with what the handler threw. *)
Definition Handlers : Type :=
  HandlerMethod → JRecord → option Principal → Res HandlerResult.

Record SkillResult : Type := {
  sr_status : TaskStatus;
  sr_message : string;
  sr_data : JRecord;
  sr_artifact : option (string * JRecord);
}.

(** The [case] labels of the [switch (skill)] of [executeSkill]. *)
Definition skill_table : list (string * HandlerMethod) :=
  [ ("get_signals", getSignals); ("signals.get_signals", getSignals);
    ("activate_signal", activateSignal);
    ("signals.activate_signal", activateSignal);
    ("get_products", getProducts); ("media_buy.get_products", getProducts);
    ("create_media_buy", createMediaBuy);
    ("media_buy.create_media_buy", createMediaBuy);
    ("update_media_buy", updateMediaBuy);
    ("media_buy.update_media_buy", updateMediaBuy);
    ("get_media_buy_delivery", getMediaBuyDelivery);
    ("media_buy.get_media_buy_delivery", getMediaBuyDelivery);
    ("sync_creatives", syncCreatives);
    ("media_buy.sync_creatives", syncCreatives);
    ("build_creative", buildCreative);
    ("creative.build_creative", buildCreative);
    ("preview_creative", previewCreative);
    ("creative.preview_creative", previewCreative) ].

Fixpoint assoc {A} (k : string) (l : list (string * A)) : option A :=
  match l with
  | [] => None
  | (k', v) :: l' => if String.eqb k k' then Some v else assoc k l'
  end.

Definition route (skill : string) : option HandlerMethod :=
  assoc skill skill_table.

Definition protocol_of (m : HandlerMethod) : Protocol :=
  match m with
  | getSignals | activateSignal => Signals
  | getProducts | createMediaBuy | updateMediaBuy | getMediaBuyDelivery
  | syncCreatives => MediaBuy
  | buildCreative | previewCreative => Creative
  end.

Definition enabled (cfg : A2aServerConfig) (p : Protocol) : bool :=
  match p with
  | Signals => has_signals cfg
  | MediaBuy => has_mediaBuy cfg
  | Creative => has_creative cfg
  end.

Definition not_enabled (p : Protocol) : Thrown :=
  AdcpError "NOT_IMPLEMENTED"
    match p with
    | Signals => "Signals protocol not enabled"
    | MediaBuy => "Media Buy protocol not enabled"
    | Creative => "Creative protocol not enabled"
    end.

(** The fields of the handler's response copied into [data]. *)
Definition data_keys (m : HandlerMethod) : list string :=
  match m with
  | getSignals => ["signals"]
  | activateSignal => ["deployments"; "errors"]
  | getProducts => ["products"]
  | createMediaBuy => ["media_buy_id"; "buyer_ref"; "packages"]
  | updateMediaBuy => ["media_buy_id"; "affected_packages"]
  | getMediaBuyDelivery =>
      ["reporting_period"; "aggregated_totals"; "media_buy_deliveries"]
  | syncCreatives => ["creatives"]
  | buildCreative => ["creative_manifest"]
  | previewCreative => ["response_type"; "previews"; "results"]
  end.

(** [x as unknown as Record<string, unknown>] on a response field. *)
Definition as_record (v : JValue) : JRecord :=
  match v with JObj f => f | _ => ∅ end.

Definition skill_artifact (m : HandlerMethod) (r : HandlerResult)
  : option (string * JRecord) :=
  match m with
  | buildCreative =>
      Some ("creative_manifest", as_record (Js.field (hr_fields r) "creative_manifest"))
  | _ => None
  end.

Definition any_includes (s : string) (needles : list string) : bool :=
  existsb (Js.includes s) needles.

Definition default_deliver_to : JValue :=
  JObj (<["deployments" := JArr []]> (<["countries" := JArr [JStr "US"]]> ∅)).

Definition handleNaturalLanguageRequest (cfg : A2aServerConfig) (h : Handlers)
    (context : string) (parameters : JRecord) (principal : option Principal)
  : Res SkillResult :=
  let lowerContext := Js.toLowerCase context in
  if any_includes lowerContext ["signal"; "audience"; "segment"]
     && has_signals cfg then
    match h getSignals
            (<["signal_spec" := JStr context]>
               (<["deliver_to" :=
                    if Js.truthy (Js.field parameters "deliver_to")
                    then Js.field parameters "deliver_to"
                    else default_deliver_to]> ∅))
            principal with
    | Ok result =>
        Ok {| sr_status := completed;
              sr_message := hr_message result;
              sr_data := Js.pick ["signals"] (hr_fields result);
              sr_artifact := None |}
    | Throw e => Throw e
    end
  else if any_includes lowerContext ["product"; "inventory"; "campaign"]
          && has_mediaBuy cfg then
    match h getProducts
            (Js.spread (<["brief" := JStr context]> ∅) parameters)
            principal with
    | Ok result =>
        Ok {| sr_status := completed;
              sr_message := hr_message result;
              sr_data := Js.pick ["products"] (hr_fields result);
              sr_artifact := None |}
    | Throw e => Throw e
    end
  else
    Ok {| sr_status := completed;
          sr_message :=
            "I understood your request but could not determine the appropriate action.";
          sr_data := <["context" := JStr context]>
                       (<["parameters" := JObj parameters]> ∅);
          sr_artifact := None |}.

(** [if (context)]: present and not the empty string. *)
Definition truthy_context (c : option string) : option string :=
  match c with
  | Some s => if Js.truthy_string s then Some s else None
  | None => None
  end.

Definition executeSkill (cfg : A2aServerConfig) (h : Handlers)
    (invocation : A2aSkillInvocation) (principal : option Principal)
  : Res SkillResult :=
  match route (skill invocation) with
  | Some m =>
      if enabled cfg (protocol_of m) then
        match h m (parameters invocation) principal with
        | Ok r =>
            Ok {| sr_status := default completed (hr_status r);
                  sr_message := hr_message r;
                  sr_data := Js.pick (data_keys m) (hr_fields r);
                  sr_artifact := skill_artifact m r |}
        | Throw e => Throw e
        end
      else Throw (not_enabled (protocol_of m))
  | None =>
      match truthy_context (context invocation) with
      | Some c =>
          handleNaturalLanguageRequest cfg h c (parameters invocation) principal
      | None =>
          Throw (AdcpError "NOT_IMPLEMENTED"
                   ("Unknown skill: " +:+ skill invocation))
      end
  end.

(* ===================================================================== *)
(** ** The server object and its monad *)
(* ===================================================================== *)

(** A listener callback: its identity and what it throws when called. *)
Record SseListener : Type := {
  lid : nat;
  lthrows : option Thrown;
}.

#[global] Instance SseListener_eq_dec : EqDecision SseListener.
Proof. solve_decision. Defined.

(** A started [processTask] call, suspended at the handler call. *)
Record Execution : Type := {
  ex_task : string;
  ex_request : A2aTaskRequest;
  ex_principal : option Principal;
  ex_webhook : option A2aWebhookConfig;
}.

Record Server : Type := {
  config : A2aServerConfig;
  tasks : gmap string A2aTask;
  (** [Map<string, Set<SseListener>>]: task id to the reference of a set *)
  taskListeners : gmap string nat;
  (** the [Set] objects ever allocated, by reference *)
  sets : gmap nat (list SseListener);
  next_ref : nat;
  (** every call of a listener, in order *)
  delivered : list (SseListener * SseEvent);
  (** every call of [sendWebhook], in order *)
  webhooks : list (A2aWebhookConfig * A2aWebhookPayload);
  (** the [processTask] calls that have not resumed yet *)
  pending : list Execution;
}.

Definition init (cfg : A2aServerConfig) : Server :=
  {| config := cfg; tasks := ∅; taskListeners := ∅; sets := ∅;
     next_ref := 0; delivered := []; webhooks := []; pending := [] |}.

Definition set_tasks (f : gmap string A2aTask → gmap string A2aTask)
    (s : Server) : Server :=
  {| config := config s; tasks := f (tasks s);
     taskListeners := taskListeners s; sets := sets s;
     next_ref := next_ref s; delivered := delivered s;
     webhooks := webhooks s; pending := pending s |}.

Definition set_taskListeners (f : gmap string nat → gmap string nat)
    (s : Server) : Server :=
  {| config := config s; tasks := tasks s;
     taskListeners := f (taskListeners s); sets := sets s;
     next_ref := next_ref s; delivered := delivered s;
     webhooks := webhooks s; pending := pending s |}.

Definition set_sets
    (f : gmap nat (list SseListener) → gmap nat (list SseListener))
    (s : Server) : Server :=
  {| config := config s; tasks := tasks s;
     taskListeners := taskListeners s; sets := f (sets s);
     next_ref := next_ref s; delivered := delivered s;
     webhooks := webhooks s; pending := pending s |}.

Definition set_next_ref (n : nat) (s : Server) : Server :=
  {| config := config s; tasks := tasks s;
     taskListeners := taskListeners s; sets := sets s;
     next_ref := n; delivered := delivered s;
     webhooks := webhooks s; pending := pending s |}.

Definition log_delivery (l : SseListener) (ev : SseEvent) (s : Server)
  : Server :=
  {| config := config s; tasks := tasks s;
     taskListeners := taskListeners s; sets := sets s;
     next_ref := next_ref s; delivered := delivered s ++ [(l, ev)];
     webhooks := webhooks s; pending := pending s |}.

Definition log_webhook (c : A2aWebhookConfig) (p : A2aWebhookPayload)
    (s : Server) : Server :=
  {| config := config s; tasks := tasks s;
     taskListeners := taskListeners s; sets := sets s;
     next_ref := next_ref s; delivered := delivered s;
     webhooks := webhooks s ++ [(c, p)]; pending := pending s |}.

Definition set_pending (f : list Execution → list Execution) (s : Server)
  : Server :=
  {| config := config s; tasks := tasks s;
     taskListeners := taskListeners s; sets := sets s;
     next_ref := next_ref s; delivered := delivered s;
     webhooks := webhooks s; pending := f (pending s) |}.

(** State and exceptions: a method returns normally or throws, and in both
    cases leaves a server state. *)
Definition M (A : Type) : Type := Server → Res A * Server.

#[global] Instance M_ret : MRet M := λ A a s, (Ok a, s).

#[global] Instance M_bind : MBind M := λ A B f m s,
  match m s with
  | (Ok a, s') => f a s'
  | (Throw e, s') => (Throw e, s')
  end.

Definition gets {A} (f : Server → A) : M A := λ s, (Ok (f s), s).

Definition modify (f : Server → Server) : M unit := λ s, (Ok (), f s).

Definition lift {A} (r : Res A) : M A := λ s, (r, s).

(** [try { m } catch (error) { h error }]. *)
Definition try_catch {A} (m : M A) (h : Thrown → M A) : M A := λ s,
  match m s with
  | (Ok a, s') => (Ok a, s')
  | (Throw e, s') => h e s'
  end.

Fixpoint for_each {A} (l : list A) (f : A → M unit) : M unit :=
  match l with
  | [] => mret ()
  | x :: l' => f x ;; for_each l' f
  end.

(* ===================================================================== *)
(** ** Events and webhooks *)
(* ===================================================================== *)

(** [listener(event)]: the call is observed, then the callback may throw. *)
Definition call_listener (l : SseListener) (ev : SseEvent) : M unit := λ s,
  (match lthrows l with Some e => Throw e | None => Ok () end,
   log_delivery l ev s).

(** The listeners registered for a task id, in registration order. *)
Definition listeners_of (taskId : string) (s : Server) : list SseListener :=
  match taskListeners s !! taskId with
  | Some r => default [] (sets s !! r)
  | None => []
  end.

Definition emitEvent (taskId : string) (ev : SseEvent) : M unit := λ s,
  for_each (listeners_of taskId s)
    (λ listener, try_catch (call_listener listener ev) (λ _, mret ())) s.

Definition sendWebhook (c : A2aWebhookConfig) (payload : A2aWebhookPayload)
  : M unit :=
  modify (log_webhook c payload).

(* ===================================================================== *)
(** ** Task records *)
(* ===================================================================== *)

Definition set_status (st : A2aTaskStatus) (now : string) (t : A2aTask)
  : A2aTask :=
  {| id := id t; status := st; messages := messages t;
     artifacts := artifacts t; created_at := created_at t;
     updated_at := now; metadata := metadata t |}.

Definition push_message (m : A2aMessage) (t : A2aTask) : A2aTask :=
  {| id := id t; status := status t; messages := messages t ++ [m];
     artifacts := artifacts t; created_at := created_at t;
     updated_at := updated_at t; metadata := metadata t |}.

Definition push_artifact (a : A2aArtifact) (t : A2aTask) : A2aTask :=
  {| id := id t; status := status t; messages := messages t;
     artifacts := artifacts t ++ [a]; created_at := created_at t;
     updated_at := updated_at t; metadata := metadata t |}.

(** A task object is reached through its id: the store never drops or
    replaces a record, so the object held by a method and the record of
    the store under that id are the same. *)
Definition update_task (taskId : string) (f : A2aTask → A2aTask) : M unit :=
  modify (set_tasks (alter f taskId)).

(** The response object built from a task (l.1196-1201, 1247-1252,
    1699-1704), with the content its fields have when it is built.  Its
    [status] is the task's status object of that moment, which the engine
    never writes to (a new status object replaces it).  Its [messages]
    and [artifacts] are the task's own two arrays, not copies: what a
    holder of the response reads from them later is given by
    [read_response]. *)
Definition response_of (t : A2aTask) : A2aTaskResponse :=
  {| task_id := id t; resp_status := status t;
     resp_messages := Some (messages t);
     resp_artifacts := Some (artifacts t) |}.

Definition completeTask (taskId : string) (responseMessage : A2aMessage)
    (st : TaskStatus) (now : string) : M unit :=
  task ← gets (λ s, tasks s !! taskId);
  match task with
  | None => mret ()
  | Some task =>
      let task' :=
        set_status
          {| state := st;
             st_message :=
               Some (if decide (st = completed)
                     then "Task completed successfully" else "Processing");
             st_timestamp := now |}
          now (push_message responseMessage task) in
      modify (set_tasks (<[taskId := task']>)) ;;
      emitEvent (id task)
        {| ev_type := sse_message; ev_data := MessageData responseMessage;
           ev_timestamp := now |} ;;
      emitEvent (id task)
        {| ev_type := sse_complete; ev_data := CompleteData (response_of task');
           ev_timestamp := now |}
  end.

Definition failTask (taskId : string) (code message now : string) : M unit :=
  task ← gets (λ s, tasks s !! taskId);
  match task with
  | None => mret ()
  | Some task =>
      modify (set_tasks (<[taskId :=
        set_status {| state := failed; st_message := Some message;
                      st_timestamp := now |} now task]>)) ;;
      emitEvent (id task)
        {| ev_type := sse_error; ev_data := ErrorData code message;
           ev_timestamp := now |}
  end.

(* ===================================================================== *)
(** ** [processTask] *)
(* ===================================================================== *)

(** The timestamps and uuids drawn while [processTask] runs. *)
Record Stamps : Type := {
  msg_timestamp : string;
  msg_uuid : string;
  art_uuid : string;
  art_created_at : string;
  art_event_timestamp : string;
  complete_now : string;
  webhook_timestamp : string;
  fail_now : string;
  fail_webhook_timestamp : string;
}.

(** [error instanceof AdcpError ? error.code : 'INTERNAL_ERROR'] *)
Definition error_code (e : Thrown) : string :=
  match e with
  | AdcpError code _ => code
  | _ => "INTERNAL_ERROR"
  end.

(** [error instanceof Error ? error.message : 'Unknown error'] *)
Definition error_message (e : Thrown) : string :=
  match e with
  | AdcpError _ message | JsError message => message
  | NonError => "Unknown error"
  end.

Definition response_message (result : SkillResult) (z : Stamps) : A2aMessage :=
  {| role := agent;
     parts := [TextPart (sr_message result); DataPart (sr_data result) None];
     msg_metadata :=
       Some {| mm_timestamp := Some (msg_timestamp z);
               mm_message_id := Some ("msg-" +:+ msg_uuid z);
               mm_correlation_id := None |} |}.

Definition result_artifact (name : string) (data : JRecord) (z : Stamps)
  : A2aArtifact :=
  {| art_name := Some name;
     art_parts := [DataPart data None];
     art_metadata :=
       Some {| artifact_id := Some ("artifact-" +:+ art_uuid z);
               am_created_at := Some (art_created_at z) |} |}.

(** [status: task.status] of a webhook payload, read when it is built. *)
Definition webhook_for (taskId : string) (webhook : option A2aWebhookConfig)
    (event : A2aWebhookEvent) (timestamp : string) (data : option JRecord)
  : M unit :=
  match webhook with
  | None => mret ()
  | Some c =>
      task ← gets (λ s, tasks s !! taskId);
      match task with
      | None => mret ()
      | Some task =>
          sendWebhook c
            {| wp_task_id := id task; wp_event := event;
               wp_status := status task; wp_timestamp := timestamp;
               wp_data := data |}
      end
  end.

Definition processTask (taskId : string) (request : A2aTaskRequest)
    (principal : option Principal) (webhook : option A2aWebhookConfig)
    (h : Handlers) (z : Stamps) : M unit :=
  try_catch
    (let invocation := parseSkillInvocation request in
     cfg ← gets config;
     result ← lift (executeSkill cfg h invocation principal);
     let responseMessage := response_message result z in
     match sr_artifact result with
     | Some (name, data) =>
         let artifact := result_artifact name data z in
         update_task taskId (push_artifact artifact) ;;
         emitEvent taskId
           {| ev_type := sse_artifact; ev_data := ArtifactData artifact;
              ev_timestamp := art_event_timestamp z |}
     | None => mret ()
     end ;;
     completeTask taskId responseMessage (sr_status result) (complete_now z) ;;
     webhook_for taskId webhook ev_completed (webhook_timestamp z)
       (Some (sr_data result)))
    (λ error,
       failTask taskId (error_code error) (error_message error) (fail_now z) ;;
       webhook_for taskId webhook ev_failed (fail_webhook_timestamp z) None).

(* ===================================================================== *)
(** ** Public API *)
(* ===================================================================== *)

Definition createTask (request : A2aTaskRequest)
    (principal : option Principal) (task_uuid now msg_id : string)
  : M A2aTaskResponse :=
  let taskId := "task-" +:+ task_uuid in
  let task :=
    {| id := taskId;
       status := {| state := working;
                    st_message := Some "Processing request";
                    st_timestamp := now |};
       messages :=
         [ {| role := user;
              parts := req_parts request;
              msg_metadata :=
                Some {| mm_timestamp := Some now;
                        mm_message_id := Some ("msg-" +:+ msg_id);
                        mm_correlation_id :=
                          req_metadata request ≫= rm_correlation_id |} |} ];
       artifacts := [];
       created_at := now;
       updated_at := now;
       metadata :=
         {| tm_skill := req_skill request;
            tm_principal_id := principal_id <$> principal;
            tm_context_id := req_metadata request ≫= rm_context_id |} |} in
  modify (set_tasks (<[taskId := task]>)) ;;
  (* this.processTask(task, request, principal, request.webhook): started,
     not awaited *)
  modify (set_pending (λ p, p ++
    [ {| ex_task := taskId; ex_request := request;
         ex_principal := principal; ex_webhook := req_webhook request |} ])) ;;
  mret {| task_id := taskId; resp_status := status task;
          resp_messages := None; resp_artifacts := None |}.

Definition getTask (taskId : string) : M (option A2aTaskResponse) :=
  task ← gets (λ s, tasks s !! taskId);
  mret (response_of <$> task).

Definition continueTask (taskId : string) (parts : list MessagePart)
    (now msg_id now' : string) : M (option A2aTaskResponse) :=
  task ← gets (λ s, tasks s !! taskId);
  match task with
  | None => mret None
  | Some task =>
      let st := {| state := working;
                   st_message := Some "Processing additional input";
                   st_timestamp := now |} in
      modify (set_tasks (<[taskId :=
        set_status st now
          (push_message
             {| role := user; parts := parts;
                msg_metadata :=
                  Some {| mm_timestamp := Some now;
                          mm_message_id := Some ("msg-" +:+ msg_id);
                          mm_correlation_id := None |} |} task)]>)) ;;
      emitEvent taskId
        {| ev_type := sse_status; ev_data := StatusData st;
           ev_timestamp := now |} ;;
      completeTask taskId
        {| role := agent;
           parts := [TextPart "Acknowledged additional input."];
           msg_metadata := None |}
        completed now' ;;
      task' ← gets (λ s, tasks s !! taskId);
      mret (response_of <$> task')
  end.

Definition cancelTask (taskId now : string) : M bool :=
  task ← gets (λ s, tasks s !! taskId);
  match task with
  | None => mret false
  | Some task =>
      if bool_decide (state (status task) = completed)
         || bool_decide (state (status task) = failed)
      then mret false
      else
        modify (set_tasks (<[taskId :=
          set_status {| state := failed; st_message := Some "Task cancelled";
                        st_timestamp := now |} now task]>)) ;;
        emitEvent taskId
          {| ev_type := sse_error;
             ev_data := ErrorData "CANCELLED" "Task was cancelled";
             ev_timestamp := now |} ;;
        mret true
  end.

(** The closure returned by [subscribeToTask]: it captures the [Set]
    object [listeners], the [listener] and the [taskId]. *)
Record Unsubscribe : Type := {
  u_listeners : nat;
  u_listener : SseListener;
  u_taskId : string;
}.

Definition subscribeToTask (taskId : string) (listener : SseListener)
    (now : string) : M Unsubscribe :=
  found ← gets (λ s, taskListeners s !! taskId);
  listeners ←
    match found with
    | Some r => mret r
    | None =>
        r ← gets next_ref;
        modify (λ s, set_taskListeners (<[taskId := r]>)
                       (set_sets (<[r := []]>) (set_next_ref (S r) s))) ;;
        mret r
    end;
  modify (set_sets (alter (Js.set_add listener) listeners)) ;;
  task ← gets (λ s, tasks s !! taskId);
  match task with
  | Some task =>
      call_listener listener
        {| ev_type := sse_status; ev_data := StatusData (status task);
           ev_timestamp := now |}
  | None => mret ()
  end ;;
  mret {| u_listeners := listeners; u_listener := listener;
          u_taskId := taskId |}.

(** Calling the closure. *)
Definition unsubscribe (u : Unsubscribe) : M unit :=
  modify (set_sets (alter (Js.set_delete (u_listener u)) (u_listeners u))) ;;
  remaining ← gets (λ s, sets s !! u_listeners u);
  match remaining with
  | Some [] => modify (set_taskListeners (delete (u_taskId u)))
  | _ => mret ()
  end.

(* ===================================================================== *)
(** ** Runs of the engine *)
(* ===================================================================== *)

(** Resuming the [i]-th suspended [processTask] with the handlers' outcome. *)
Definition exec_done (i : nat) (h : Handlers) (z : Stamps) : M unit := λ s,
  match pending s !! i with
  | None => (Ok (), s)
  | Some ex =>
      processTask (ex_task ex) (ex_request ex) (ex_principal ex)
        (ex_webhook ex) h z (set_pending (delete i) s)
  end.

(** What the bindings and the event loop can do to a server. *)
Inductive Op : Type :=
| OpCreate (request : A2aTaskRequest) (principal : option Principal)
    (task_uuid now msg_id : string)
| OpGet (taskId : string)
| OpContinue (taskId : string) (parts : list MessagePart)
    (now msg_id now' : string)
| OpCancel (taskId now : string)
| OpSubscribe (taskId : string) (listener : SseListener) (now : string)
| OpUnsubscribe (u : Unsubscribe)
| OpExecDone (i : nat) (h : Handlers) (z : Stamps).

Definition run_op (op : Op) (s : Server) : Server :=
  match op with
  | OpCreate request principal task_uuid now msg_id =>
      (createTask request principal task_uuid now msg_id s).2
  | OpGet taskId => (getTask taskId s).2
  | OpContinue taskId parts now msg_id now' =>
      (continueTask taskId parts now msg_id now' s).2
  | OpCancel taskId now => (cancelTask taskId now s).2
  | OpSubscribe taskId listener now =>
      (subscribeToTask taskId listener now s).2
  | OpUnsubscribe u => (unsubscribe u s).2
  | OpExecDone i h z => (exec_done i h z s).2
  end.

Definition run (ops : list Op) (s : Server) : Server :=
  foldl (λ s op, run_op op s) s ops.

(** [uuid()] does not repeat: a created task gets an id not in the store. *)
Definition op_allowed (s : Server) (op : Op) : Prop :=
  match op with
  | OpCreate _ _ task_uuid _ _ => tasks s !! ("task-" +:+ task_uuid) = None
  | _ => True
  end.

Inductive reachable (cfg : A2aServerConfig) : Server → Prop :=
| reachable_init : reachable cfg (init cfg)
| reachable_step s op :
    reachable cfg s → op_allowed s op → reachable cfg (run_op op s).

(** The events a listener was called with, in order. *)
Definition received (l : SseListener) (s : Server) : list SseEvent :=
  snd <$> filter (λ d, d.1 = l) (delivered s).

(** The webhook calls made for a task id, in order. *)
Definition webhooks_of (taskId : string) (s : Server)
  : list A2aWebhookPayload :=
  filter (λ p, wp_task_id p = taskId) (snd <$> webhooks s).

Definition task_state (taskId : string) (s : Server) : option TaskStatus :=
  (state ∘ status) <$> tasks s !! taskId.

(* ===================================================================== *)
(** ** Vocabulary of the properties *)
(* ===================================================================== *)

Definition text_of (p : MessagePart) : option string :=
  match p with TextPart t => Some t | _ => None end.

Definition data_of (p : MessagePart) : option JRecord :=
  match p with DataPart d _ => Some d | _ => None end.

Definition file_of (p : MessagePart) : option FileRef :=
  match p with
  | FilePart u m n => Some {| uri := u; mimeType := m; name := n |}
  | _ => None
  end.

(** The Parts of each kind, in the order of the list. *)
Definition text_parts (ps : list MessagePart) : list string := omap text_of ps.
Definition data_parts (ps : list MessagePart) : list JRecord := omap data_of ps.
Definition file_parts (ps : list MessagePart) : list FileRef := omap file_of ps.

(** The shallow merge of records in list order, read at one key: the value
    given by the last record that has the key. *)
Definition merged_at (k : string) (ds : list JRecord) : option JValue :=
  last (omap (λ d : JRecord, d !! k) ds).

(** The server after some more listener calls. *)
Definition add_deliveries (ds : list (SseListener * SseEvent)) (s : Server)
  : Server :=
  {| config := config s; tasks := tasks s;
     taskListeners := taskListeners s; sets := sets s;
     next_ref := next_ref s; delivered := delivered s ++ ds;
     webhooks := webhooks s; pending := pending s |}.

(** One call per listener registered for the task, in registration order. *)
Definition broadcast (taskId : string) (ev : SseEvent) (s : Server)
  : list (SseListener * SseEvent) :=
  (λ l, (l, ev)) <$> listeners_of taskId s.

(** The events of the engine. *)
Definition status_event (st : A2aTaskStatus) (now : string) : SseEvent :=
  {| ev_type := sse_status; ev_data := StatusData st; ev_timestamp := now |}.

Definition message_event (m : A2aMessage) (now : string) : SseEvent :=
  {| ev_type := sse_message; ev_data := MessageData m; ev_timestamp := now |}.

Definition artifact_event (a : A2aArtifact) (now : string) : SseEvent :=
  {| ev_type := sse_artifact; ev_data := ArtifactData a; ev_timestamp := now |}.

Definition complete_event (t : A2aTask) (now : string) : SseEvent :=
  {| ev_type := sse_complete; ev_data := CompleteData (response_of t);
     ev_timestamp := now |}.

Definition error_event (code message now : string) : SseEvent :=
  {| ev_type := sse_error; ev_data := ErrorData code message;
     ev_timestamp := now |}.

(** The task record after [completeTask] and after [failTask]. *)
Definition completed_task (m : A2aMessage) (st : TaskStatus) (now : string)
    (t : A2aTask) : A2aTask :=
  set_status
    {| state := st;
       st_message := Some (if decide (st = completed)
                           then "Task completed successfully"
                           else "Processing");
       st_timestamp := now |}
    now (push_message m t).

Definition failed_task (message now : string) (t : A2aTask) : A2aTask :=
  set_status {| state := failed; st_message := Some message;
                st_timestamp := now |} now t.

(** The record and the event of a cancellation. *)
Definition cancelled_task (now : string) (t : A2aTask) : A2aTask :=
  set_status {| state := failed; st_message := Some "Task cancelled";
                st_timestamp := now |} now t.

Definition cancel_event (now : string) : SseEvent :=
  error_event "CANCELLED" "Task was cancelled" now.

(** The guard of [cancelTask]. *)
Definition cancel_refused (st : TaskStatus) : bool :=
  bool_decide (st = completed) || bool_decide (st = failed).

(** An [AdcpError] built as its constructor is typed: [code : ErrorCode]. *)
Definition well_typed (e : Thrown) : Prop :=
  match e with
  | AdcpError code _ => code ∈ ERROR_CODES
  | _ => True
  end.

(** The messages and records of [continueTask]. *)
Definition user_message (parts : list MessagePart) (now msg_id : string)
  : A2aMessage :=
  {| role := user; parts := parts;
     msg_metadata :=
       Some {| mm_timestamp := Some now;
               mm_message_id := Some ("msg-" +:+ msg_id);
               mm_correlation_id := None |} |}.

Definition ack_message : A2aMessage :=
  {| role := agent;
     parts := [TextPart "Acknowledged additional input."];
     msg_metadata := None |}.

Definition resumed_status (now : string) : A2aTaskStatus :=
  {| state := working; st_message := Some "Processing additional input";
     st_timestamp := now |}.

Definition resumed_task (parts : list MessagePart) (now msg_id : string)
    (t : A2aTask) : A2aTask :=
  set_status (resumed_status now) now
    (push_message (user_message parts now msg_id) t).

Definition continued_task (parts : list MessagePart)
    (now msg_id now' : string) (t : A2aTask) : A2aTask :=
  completed_task ack_message completed now'
    (resumed_task parts now msg_id t).


(** The server after an optional [sendWebhook]. *)
Definition with_webhook (webhook : option A2aWebhookConfig)
    (p : A2aWebhookPayload) (s : Server) : Server :=
  match webhook with
  | Some c => log_webhook c p s
  | None => s
  end.

(** The outcome of [processTask] when [executeSkill] throws [e]. *)
Definition failure_payload (e : Thrown) (z : Stamps) (t : A2aTask)
  : A2aWebhookPayload :=
  {| wp_task_id := id t; wp_event := ev_failed;
     wp_status := status (failed_task (error_message e) (fail_now z) t);
     wp_timestamp := fail_webhook_timestamp z; wp_data := None |}.

Definition failure_event (e : Thrown) (z : Stamps) : SseEvent :=
  error_event (error_code e) (error_message e) (fail_now z).

Definition failed_server (taskId : string) (e : Thrown) (z : Stamps)
    (webhook : option A2aWebhookConfig) (t : A2aTask) (s : Server) : Server :=
  with_webhook webhook (failure_payload e z t)
    (add_deliveries (broadcast (id t) (failure_event e z) s)
       (set_tasks (<[taskId := failed_task (error_message e) (fail_now z) t]>) s)).

(** The outcome of [processTask] when [executeSkill] returns [result]. *)
Definition with_artifact (result : SkillResult) (z : Stamps) (t : A2aTask)
  : A2aTask :=
  match sr_artifact result with
  | Some (name, data) => push_artifact (result_artifact name data z) t
  | None => t
  end.

Definition artifact_events (result : SkillResult) (z : Stamps)
  : list SseEvent :=
  match sr_artifact result with
  | Some (name, data) =>
      [artifact_event (result_artifact name data z) (art_event_timestamp z)]
  | None => []
  end.

Definition finished_task (result : SkillResult) (z : Stamps) (t : A2aTask)
  : A2aTask :=
  completed_task (response_message result z) (sr_status result)
    (complete_now z) (with_artifact result z t).

Definition success_payload (result : SkillResult) (z : Stamps) (t : A2aTask)
  : A2aWebhookPayload :=
  {| wp_task_id := id t; wp_event := ev_completed;
     wp_status := status (finished_task result z t);
     wp_timestamp := webhook_timestamp z;
     wp_data := Some (sr_data result) |}.

(** The events of a successful execution, in the order of emission. *)
Definition success_events (result : SkillResult) (z : Stamps) (t : A2aTask)
  : list SseEvent :=
  artifact_events result z
  ++ [ message_event (response_message result z) (complete_now z);
       complete_event (finished_task result z t) (complete_now z) ].

Definition succeeded_server (taskId : string) (result : SkillResult)
    (z : Stamps) (webhook : option A2aWebhookConfig) (t : A2aTask)
    (s : Server) : Server :=
  with_webhook webhook (success_payload result z t)
    (add_deliveries
       ((artifact_events result z ≫= λ ev, broadcast taskId ev s)
        ++ broadcast (id t)
             (message_event (response_message result z) (complete_now z)) s
        ++ broadcast (id t)
             (complete_event (finished_task result z t) (complete_now z)) s)
       (set_tasks (<[taskId := finished_task result z t]>) s)).

(** A method that returns normally from every state. *)
Definition never_throws {A} (m : M A) : Prop :=
  ∀ s, ∃ a, (m s).1 = Ok a.

(** The record and the execution made by [createTask]. *)
Definition new_task (request : A2aTaskRequest) (principal : option Principal)
    (task_uuid now msg_id : string) : A2aTask :=
  {| id := "task-" +:+ task_uuid;
     status := {| state := working; st_message := Some "Processing request";
                  st_timestamp := now |};
     messages :=
       [ {| role := user;
            parts := req_parts request;
            msg_metadata :=
              Some {| mm_timestamp := Some now;
                      mm_message_id := Some ("msg-" +:+ msg_id);
                      mm_correlation_id :=
                        req_metadata request ≫= rm_correlation_id |} |} ];
     artifacts := [];
     created_at := now;
     updated_at := now;
     metadata :=
       {| tm_skill := req_skill request;
          tm_principal_id := principal_id <$> principal;
          tm_context_id := req_metadata request ≫= rm_context_id |} |}.

Definition new_execution (request : A2aTaskRequest)
    (principal : option Principal) (task_uuid : string) : Execution :=
  {| ex_task := "task-" +:+ task_uuid; ex_request := request;
     ex_principal := principal; ex_webhook := req_webhook request |}.

(** The server once a listener is in the set of a task id. *)
Definition registered (taskId : string) (l : SseListener) (s : Server)
  : Server :=
  match taskListeners s !! taskId with
  | Some r => set_sets (alter (Js.set_add l) r) s
  | None =>
      set_taskListeners (<[taskId := next_ref s]>)
        (set_sets (<[next_ref s := [l]]>)
           (set_next_ref (S (next_ref s)) s))
  end.

(** The reference captured by the closure that [subscribeToTask] returns. *)
Definition captured_set (taskId : string) (s : Server) : nat :=
  default (next_ref s) (taskListeners s !! taskId).

(** The suspended executions of a task. *)
Definition pending_of (taskId : string) (s : Server) : list Execution :=
  filter (λ ex, ex_task ex = taskId) (pending s).

(** Invariants of the task store, of the suspended executions and of the
    webhook log. *)
Record tasks_wf (s : Server) : Prop := {
  wf_ids : ∀ k t, tasks s !! k = Some t → id t = k;
  wf_pending : ∀ ex, ex ∈ pending s → is_Some (tasks s !! ex_task ex);
  wf_hooks : ∀ p, p ∈ (webhooks s).*2 → is_Some (tasks s !! wp_task_id p);
  wf_once : ∀ k,
    (length (webhooks_of k s) + length (pending_of k s) ≤ 1)%nat;
}.

(** Invariant of the listener registry: a registered set exists and holds
    each listener once. *)
Definition listeners_wf (s : Server) : Prop :=
  ∀ k r, taskListeners s !! k = Some r →
         ∃ ls, sets s !! r = Some ls ∧ NoDup ls.

Definition is_exec_done (op : Op) : bool :=
  match op with OpExecDone _ _ _ => true | _ => false end.

(** The event of the webhook call that ends an execution. *)
Definition outcome_event {A} (r : Res A) : A2aWebhookEvent :=
  match r with Ok _ => ev_completed | Throw _ => ev_failed end.

(** Publishing a sequence of events for a task, one [emitEvent] each. *)
Definition publish_all (taskId : string) (evs : list SseEvent) : M unit :=
  for_each evs (emitEvent taskId).

(** The listener calls of a sequence of events sent to a list of
    listeners: event after event, and for each event listener after
    listener. *)
Definition broadcasts (ls : list SseListener) (evs : list SseEvent)
  : list (SseListener * SseEvent) :=
  evs ≫= λ ev, (λ l, (l, ev)) <$> ls.


(* ===================================================================== *)
(** ** Concrete inputs *)
(* ===================================================================== *)

Definition two_texts : A2aTaskRequest :=
  {| req_skill := None;
     req_parts := [TextPart "find signals"; TextPart "for sports fans"];
     req_metadata := None; req_webhook := None |}.

Definition all_handlers : A2aServerConfig :=
  {| has_signals := true; has_mediaBuy := true; has_creative := true |}.

Definition no_handlers : A2aServerConfig :=
  {| has_signals := false; has_mediaBuy := false; has_creative := false |}.

Definition stamps0 : Stamps :=
  {| msg_timestamp := "2025-01-01T00:00:01Z"; msg_uuid := "m1";
     art_uuid := "a1"; art_created_at := "2025-01-01T00:00:01Z";
     art_event_timestamp := "2025-01-01T00:00:01Z";
     complete_now := "2025-01-01T00:00:02Z";
     webhook_timestamp := "2025-01-01T00:00:03Z";
     fail_now := "2025-01-01T00:00:02Z";
     fail_webhook_timestamp := "2025-01-01T00:00:03Z" |}.

Definition hook : A2aWebhookConfig :=
  {| url := "https://buyer.example/hook"; events := None |}.

Definition get_signals_request (webhook : option A2aWebhookConfig)
  : A2aTaskRequest :=
  {| req_skill := Some "get_signals";
     req_parts := [DataPart (<["signal_spec" := JStr "sports fans"]> ∅) None];
     req_metadata := None; req_webhook := webhook |}.

(** A handler that resolves with the given status. *)
Definition answers (st : option TaskStatus) : Handlers := λ _ _ _,
  Ok {| hr_status := st; hr_message := "ok";
        hr_fields := <["signals" := JArr []]> ∅ |}.

(** A handler that rejects. *)
Definition rejects (e : Thrown) : Handlers := λ _ _ _, Throw e.

Definition watcher : SseListener := {| lid := 1; lthrows := None |}.
Definition watcher2 : SseListener := {| lid := 2; lthrows := None |}.
Definition faulty_watcher : SseListener :=
  {| lid := 3; lthrows := Some (JsError "socket closed") |}.

Definition t0 : string := "2025-01-01T00:00:00Z".
Definition t9 : string := "2025-01-01T00:00:09Z".

(** A server with one task being worked on and one watcher. *)
Definition working_server : Server :=
  run [ OpCreate (get_signals_request None) None "1" t0 "m0";
        OpSubscribe "task-1" watcher t0 ] (init all_handlers).

(** The same task after its handler resolved. *)
Definition completed_server : Server :=
  run [ OpExecDone 0 (answers None) stamps0 ] working_server.


(** The same task after its handler declared the status [canceled]. *)
Definition handler_canceled_server : Server :=
  run [ OpExecDone 0 (answers (Some canceled)) stamps0 ] working_server.

(** The record of the task of [working_server]. *)
Definition working_task : A2aTask :=
  {| id := "task-1";
     status := {| state := working; st_message := Some "Processing request";
                  st_timestamp := t0 |};
     messages :=
       [ {| role := user;
            parts := req_parts (get_signals_request None);
            msg_metadata :=
              Some {| mm_timestamp := Some t0;
                      mm_message_id := Some "msg-m0";
                      mm_correlation_id := None |} |} ];
     artifacts := [];
     created_at := t0; updated_at := t0;
     metadata := {| tm_skill := Some "get_signals"; tm_principal_id := None;
                    tm_context_id := None |} |}.

(** The record of the task of [completed_server]. *)
Definition signals_result : SkillResult :=
  {| sr_status := completed; sr_message := "ok";
     sr_data := Js.pick ["signals"] (<["signals" := JArr []]> ∅);
     sr_artifact := None |}.

Definition done_task : A2aTask :=
  completed_task (response_message signals_result stamps0) completed
    (complete_now stamps0) working_task.

Definition more_input : list MessagePart := [TextPart "and in Canada"].

Definition budget_error : Thrown :=
  AdcpError "BUDGET_INSUFFICIENT" "Budget below the product minimum".

(** One task being worked on, with a webhook, a watcher and a faulty
    watcher. *)
Definition hooked_server : Server :=
  run [ OpCreate (get_signals_request (Some hook)) None "1" t0 "m0";
        OpSubscribe "task-1" faulty_watcher t0;
        OpSubscribe "task-1" watcher t0 ] (init all_handlers).

Definition hooked_execution : Execution :=
  {| ex_task := "task-1"; ex_request := get_signals_request (Some hook);
     ex_principal := None; ex_webhook := Some hook |}.


(** A request with no Parts and no skill, and one that names an unknown
    skill and has no text Part. *)
Definition empty_request : A2aTaskRequest :=
  {| req_skill := None; req_parts := [];
     req_metadata := None; req_webhook := None |}.

Definition unknown_skill_request : A2aTaskRequest :=
  {| req_skill := Some "buy_billboard";
     req_parts := [DataPart (<["city" := JStr "Oslo"]> ∅) None];
     req_metadata := None; req_webhook := None |}.

Definition build_creative_request : A2aTaskRequest :=
  {| req_skill := Some "build_creative";
     req_parts := [TextPart "a 300x250 banner"];
     req_metadata := None; req_webhook := None |}.

(** A creative handler that resolves with a manifest. *)
Definition builds : Handlers := λ _ _ _,
  Ok {| hr_status := Some completed; hr_message := "built";
        hr_fields :=
          <["creative_manifest" := JObj (<["format" := JStr "300x250"]> ∅)]> ∅ |}.

(** The closure returned by the first [subscribeToTask] on a fresh server:
    it holds the first [Set] allocated. *)
Definition first_closure : Unsubscribe :=
  {| u_listeners := 0; u_listener := watcher; u_taskId := "task-9" |}.

Definition ping : SseEvent :=
  {| ev_type := sse_progress;
     ev_data := StatusData {| state := working; st_message := None;
                              st_timestamp := t9 |};
     ev_timestamp := t9 |}.

(** [watcher] subscribes to an unknown task id and unsubscribes; then
    [watcher2] subscribes to the same id. *)
Definition resubscribed_server : Server :=
  run [ OpSubscribe "task-9" watcher t0;
        OpUnsubscribe first_closure;
        OpSubscribe "task-9" watcher2 t0 ] (init all_handlers).

(* ===================================================================== *)
(** ** The agent card ([getAgentCard], [initializeSkills]) *)
(* ===================================================================== *)

Record A2aSkill : Type := {
  sk_name : string;
  sk_description : string;
  sk_examples : list string;
}.

(** [initializeSkills]: the skills pushed for each configured handler. *)
Definition initializeSkills (cfg : A2aServerConfig) : list A2aSkill :=
  (if has_signals cfg then
     [ {| sk_name := "get_signals";
          sk_description :=
            "Discover audience signals based on natural language descriptions";
          sk_examples :=
            [ "Find high-income households interested in luxury goods";
              "Get automotive intender segments for the US market" ] |};
       {| sk_name := "activate_signal";
          sk_description :=
            "Deploy a signal to specific platforms or sales agents";
          sk_examples := ["Activate the luxury auto segment on The Trade Desk"] |} ]
   else [])
  ++ (if has_mediaBuy cfg then
        [ {| sk_name := "get_products";
             sk_description :=
               "Discover advertising inventory based on campaign requirements";
             sk_examples :=
               [ "Find premium video inventory for a sports campaign";
                 "Show me display products with $50k+ budget" ] |};
          {| sk_name := "create_media_buy";
             sk_description := "Create advertising campaigns";
             sk_examples :=
               ["Create a 30-day video campaign targeting millennials"] |};
          {| sk_name := "update_media_buy";
             sk_description := "Modify existing campaigns";
             sk_examples :=
               ["Pause the summer campaign"; "Increase budget by 20%"] |};
          {| sk_name := "get_media_buy_delivery";
             sk_description := "Get campaign performance metrics";
             sk_examples := ["Show delivery for my active campaigns"] |};
          {| sk_name := "sync_creatives";
             sk_description := "Upload and manage creative assets";
             sk_examples := ["Upload the new video creative"] |} ]
      else [])
  ++ (if has_creative cfg then
        [ {| sk_name := "build_creative";
             sk_description := "Generate or transform creative assets";
             sk_examples :=
               [ "Create a 300x250 display ad from my brand assets";
                 "Convert this video to a 15-second format" ] |};
          {| sk_name := "preview_creative";
             sk_description := "Generate preview renderings";
             sk_examples := ["Preview the banner on desktop and mobile"] |} ]
      else []).

Inductive AgentType : Type := signal_agent | sales_agent | creative_agent.

(** The fields of [A2aServerConfig] that only the agent card reads. *)
Record AgentIdentity : Type := {
  ai_name : string;
  ai_description : option string;
  ai_url : string;
  ai_version : string;
  ai_agentType : AgentType;
}.

Record A2aAgentCard : Type := {
  card_name : string;
  card_description : option string;
  card_url : string;
  card_version : string;
  card_skills : list A2aSkill;
  card_protocol_version : string;
  card_domains : list string;
  card_agent_type : AgentType;
  card_auth_schemes : list string;
}.

Definition getAgentCard (ident : AgentIdentity) (cfg : A2aServerConfig)
  : A2aAgentCard :=
  let domains :=
    (if has_signals cfg then ["signals"] else [])
    ++ (if has_mediaBuy cfg then ["media_buy"] else [])
    ++ (if has_creative cfg then ["creative"] else []) in
  {| card_name := ai_name ident;
     card_description := ai_description ident;
     card_url := ai_url ident;
     card_version := ai_version ident;
     card_skills := initializeSkills cfg;
     card_protocol_version := "2.6";
     card_domains := domains;
     card_agent_type := ai_agentType ident;
     card_auth_schemes := ["bearer"] |}.

(** The domain name of a protocol in the agent card. *)
Definition domain_of (p : Protocol) : string :=
  match p with
  | Signals => "signals"
  | MediaBuy => "media_buy"
  | Creative => "creative"
  end.

(* ===================================================================== *)
(** ** Histories *)
(* ===================================================================== *)

(** [t'] is a later version of the record [t]: same identity, and the
    messages and artifacts of [t] followed by more. *)
Definition extends (t t' : A2aTask) : Prop :=
  id t' = id t
  ∧ created_at t' = created_at t
  ∧ metadata t' = metadata t
  ∧ messages t `prefix_of` messages t'
  ∧ artifacts t `prefix_of` artifacts t'.

(** [s'] is reached from [s] by allowed operations. *)
Inductive evolves : Server → Server → Prop :=
| evolves_refl s : evolves s s
| evolves_step s s' op :
    evolves s s' → op_allowed s' op → evolves s (run_op op s').

(** The closure that [subscribeToTask] returns on [s]. *)
Definition closure_of (taskId : string) (l : SseListener) (s : Server)
  : Unsubscribe :=
  {| u_listeners := captured_set taskId s; u_listener := l;
     u_taskId := taskId |}.

(* ===================================================================== *)
(** ** Responses share the task's arrays *)
(* ===================================================================== *)

(** What the holder of a response object reads from it once the server is
    in state [s].  The object was built from the task stored under
    [task_id] (l.1196-1201, 1247-1252): its [status] field holds the
    status object of that moment, and a status object is never written
    to (l.1225, 1267, 1686, 1713 assign a new one), so that field reads
    as when the response was built; its [messages] and [artifacts]
    fields, when it has them, hold the task's own arrays, to which the
    engine pushes (l.1216, 1374, 1684), so they read as the task's arrays
    are in [s].  (The store keeps a task object for ever, and under
    [op_allowed] no second object takes its id.) *)
Definition read_response (r : A2aTaskResponse) (s : Server)
  : A2aTaskResponse :=
  match tasks s !! task_id r with
  | Some t =>
      {| task_id := task_id r;
         resp_status := resp_status r;
         resp_messages := (λ _, messages t) <$> resp_messages r;
         resp_artifacts := (λ _, artifacts t) <$> resp_artifacts r |}
  | None => r
  end.

(* ===================================================================== *)
(** ** The handler call of an execution *)
(* ===================================================================== *)


(* ===================================================================== *)
(** ** Capability discovery: the structure of adagents.json *)
(* ===================================================================== *)

(** [typeof v === 'object' && v !== null]: objects and arrays. *)
Definition is_object (v : JValue) : bool :=
  match v with JArr _ | JObj _ => true | _ => false end.

(** [typeof v === 'string'] *)
Definition is_string (v : JValue) : bool :=
  match v with JStr _ => true | _ => false end.

(** [v.k] for the keys read by the validators: a key of the object, and
    [undefined] on anything that is not a plain object (none of these
    keys exists on an array). *)
Definition prop (v : JValue) (k : string) : JValue :=
  match v with JObj f => Js.field f k | _ => JUndefined end.

(** [a || b] *)
Definition js_or (a b : JValue) : JValue := if Js.truthy a then a else b.

(** The checks of one entry of [authorized_agents] in
    [isValidAdAgentsJson]. *)
Definition agent_shape_ok (agent : JValue) : bool :=
  if negb (is_object agent) then false
  else if negb (is_string (prop agent "url"))
          && negb (is_string (prop agent "agent_url")) then false
  else if negb (is_string (prop agent "authorized_for"))
          && negb (is_string (prop agent "name")) then false
  else if negb (is_string (prop agent "scope")) then false
  else true.

Definition isValidAdAgentsJson (data : JValue) : bool :=
  if negb (is_object data) then false
  else if negb (is_string (prop data "version")) then false
  else
    match prop data "authorized_agents" with
    | JArr agents =>
        let contact := js_or (prop data "contact") (prop data "publisher") in
        if negb (is_object contact) then false
        else if negb (is_string (prop contact "name")) then false
        else forallb agent_shape_ok agents
    | _ => false
    end.

(** [xs.forEach((x, index) => ...)] for a callback that pushes errors. *)
Fixpoint errors_from (f : nat → JValue → list string) (index : nat)
    (xs : list JValue) : list string :=
  match xs with
  | [] => []
  | x :: xs' => f index x ++ errors_from f (S index) xs'
  end.

Definition required (ok : bool) (error : string) : list string :=
  if ok then [] else [error].

Definition property_errors (index : nat) (p : JValue) : list string :=
  let at_i := "properties[" +:+ pretty index +:+ "]" in
  if negb (is_object p) then [at_i +:+ " must be an object"]
  else
    required (is_string (prop p "property_id"))
      (at_i +:+ ".property_id is required")
    ++ required (is_string (prop p "property_type"))
         (at_i +:+ ".property_type is required")
    ++ required (is_string (prop p "name")) (at_i +:+ ".name is required").

Definition SCOPES : list string :=
  ["full"; "partial"; "exclusive"; "non_exclusive"].

Definition AUTHORIZATION_TYPES : list string :=
  ["property_ids"; "property_tags"; "inline"; "publisher"].

Definition agent_errors (index : nat) (agent : JValue) : list string :=
  let at_i := "authorized_agents[" +:+ pretty index +:+ "]" in
  if negb (is_object agent) then [at_i +:+ " must be an object"]
  else
    required (is_string (prop agent "url") || is_string (prop agent "agent_url"))
      (at_i +:+ ".url is required")
    ++ required (is_string (prop agent "authorized_for"))
         (at_i +:+ ".authorized_for is required")
    ++ match prop agent "scope" with
       | JStr sc =>
           required (bool_decide (sc ∈ SCOPES))
             (at_i +:+ ".scope must be one of: full, partial, exclusive, non_exclusive")
       | _ => [at_i +:+ ".scope is required"]
       end
    ++ match prop agent "authorization_type" with
       | JUndefined => []
       | JStr ty =>
           required (bool_decide (ty ∈ AUTHORIZATION_TYPES))
             (at_i +:+ ".authorization_type must be one of: property_ids, property_tags, inline, publisher")
       | _ =>
           [at_i +:+ ".authorization_type must be one of: property_ids, property_tags, inline, publisher"]
       end.

Definition validateAdAgentsJson (data : JValue) : bool * list string :=
  if negb (is_object data) then (false, ["Root must be an object"])
  else
    let contact := js_or (prop data "contact") (prop data "publisher") in
    let errors :=
      required (is_string (prop data "version"))
        "Missing or invalid version field"
      ++ (if negb (is_object contact) then ["Missing or invalid contact field"]
          else required (is_string (prop contact "name")) "Missing contact.name")
      ++ match prop data "properties" with
         | JUndefined => []
         | JArr ps => errors_from property_errors 0 ps
         | _ => ["properties must be an array"]
         end
      ++ match prop data "authorized_agents" with
         | JArr agents => errors_from agent_errors 0 agents
         | _ => ["Missing or invalid authorized_agents array"]
         end in
    (match errors with [] => true | _ => false end, errors).

(** [generateAdAgentsJson]: [options] given as its three optional fields
    ([undefined] when absent). *)
Definition generateAdAgentsJson (contact : JValue)
    (authorizedAgents : list JValue)
    (properties tags schemaUrl : JValue) (now : string) : JValue :=
  JObj (<["$schema" := schemaUrl]>
       (<["version" := JStr "1.0"]>
       (<["contact" := contact]>
       (<["properties" := properties]>
       (<["tags" := tags]>
       (<["authorized_agents" := JArr authorizedAgents]>
       (<["last_updated" := JStr now]> ∅))))))).

(* ===================================================================== *)
(** ** Capability discovery: the cache of [getAdAgentsJson] *)
(* ===================================================================== *)

Record CacheEntry : Type := {
  ce_data : JValue;
  ce_expiresAt : Z;
}.

(** What [await fetchFn(url, ...)] and [await response.json()] give:
    [fetch] rejects (network error, abort on timeout), or resolves with
    [response.ok] and a body that parses or not. *)
Inductive FetchOutcome : Type :=
| FetchRejects
| FetchResponse (ok : bool) (json : option JValue).

Definition adagents_url (domain : string) : string :=
  "https://" +:+ domain +:+ "/.well-known/adagents.json".

(** The [try] block of [getAdAgentsJson]: fetch, check, cache; [null] on
    any failure.  [now'] is [Date.now()] when the document is cached. *)
Definition fetch_and_cache (cacheTtlSeconds : Z) (now' : Z)
    (fetchFn : string → FetchOutcome) (domain : string)
    (cache : gmap string CacheEntry)
  : option JValue * gmap string CacheEntry :=
  match fetchFn (adagents_url domain) with
  | FetchResponse true (Some data) =>
      if isValidAdAgentsJson data then
        (Some data,
         <[domain := {| ce_data := data;
                        ce_expiresAt := (now' + cacheTtlSeconds * 1000)%Z |}]>
           cache)
      else (None, cache)
  | _ => (None, cache)
  end.

(** [getAdAgentsJson(domain)]: [now] is [Date.now()] at the cache check,
    [fetchFn] is given by its outcome on each url. *)
Definition getAdAgentsJson (cacheTtlSeconds : Z) (now now' : Z)
    (fetchFn : string → FetchOutcome) (domain : string)
    (cache : gmap string CacheEntry)
  : option JValue * gmap string CacheEntry :=
  match cache !! domain with
  | Some cached =>
      if (now <? ce_expiresAt cached)%Z then (Some (ce_data cached), cache)
      else fetch_and_cache cacheTtlSeconds now' fetchFn domain cache
  | None => fetch_and_cache cacheTtlSeconds now' fetchFn domain cache
  end.

Definition clearCache (cache : gmap string CacheEntry)
  : gmap string CacheEntry := ∅.

Definition clearDomainCache (domain : string) (cache : gmap string CacheEntry)
  : gmap string CacheEntry := delete domain cache.

(** The calls made to a [CapabilityDiscoveryService]. *)
Inductive DiscoveryCall : Type :=
| CallGet (domain : string) (now now' : Z) (fetchFn : string → FetchOutcome)
| CallClear
| CallClearDomain (domain : string).

(** One call: the document returned, if the call returns one, and the
    cache afterwards. *)
Definition discovery_step (ttl : Z) (c : DiscoveryCall)
    (cache : gmap string CacheEntry)
  : option JValue * gmap string CacheEntry :=
  match c with
  | CallGet domain now now' fetchFn =>
      getAdAgentsJson ttl now now' fetchFn domain cache
  | CallClear => (None, clearCache cache)
  | CallClearDomain domain => (None, clearDomainCache domain cache)
  end.

(** A sequence of calls on a new service: the documents returned, in
    order, and the final cache. *)
Fixpoint discovery_run (ttl : Z) (cs : list DiscoveryCall)
    (cache : gmap string CacheEntry)
  : list JValue * gmap string CacheEntry :=
  match cs with
  | [] => ([], cache)
  | c :: cs' =>
      let '(r, cache') := discovery_step ttl c cache in
      let '(rs, cache'') := discovery_run ttl cs' cache' in
      (match r with Some d => d :: rs | None => rs end, cache'')
  end.

(* ===================================================================== *)
(** ** Capability discovery: [validateInventoryAuthorization] *)
(* ===================================================================== *)

Inductive AuthorizationScope : Type :=
| scope_full | scope_partial | scope_exclusive | scope_non_exclusive.

Record FormatId : Type := { fi_agent_url : string; fi_id : string }.

#[global] Instance FormatId_eq_dec : EqDecision FormatId.
Proof. solve_decision. Defined.

(** [commissionPercentage] is only carried along. *)
Record AuthorizationResult : Type := {
  authorized : bool;
  reason : option string;
  auth_scope : option AuthorizationScope;
  propertyTags : option (list string);
  channels : option (list string);
  formatIds : option (list FormatId);
  commissionPercentage : option Z;
  validFrom : option string;
  validUntil : option string;
}.

Record InventoryOptions : Type := {
  opt_propertyTag : option string;
  opt_channel : option string;
  opt_formatId : option FormatId;
}.

Definition denied (why : string) : AuthorizationResult :=
  {| authorized := false; reason := Some why; auth_scope := None;
     propertyTags := None; channels := None; formatIds := None;
     commissionPercentage := None; validFrom := None; validUntil := None |}.

(** [x && ...] on an optional string: present and not empty. *)
Definition given (o : option string) : option string := truthy_context o.

(** The three checks of [validateInventoryAuthorization]: the denial each
    one returns, if it returns. *)
Definition tag_denial (authResult : AuthorizationResult)
    (options : InventoryOptions) : option AuthorizationResult :=
  match given (opt_propertyTag options), propertyTags authResult with
  | Some tag, Some tags =>
      if bool_decide (tag ∈ tags) then None
      else Some (denied ("Property tag '" +:+ tag
                         +:+ "' not in authorized scope"))
  | _, _ => None
  end.

Definition channel_denial (authResult : AuthorizationResult)
    (options : InventoryOptions) : option AuthorizationResult :=
  match given (opt_channel options), channels authResult with
  | Some ch, Some chs =>
      if bool_decide (ch ∈ chs) then None
      else Some (denied ("Channel '" +:+ ch +:+ "' not in authorized scope"))
  | _, _ => None
  end.

Definition format_denial (authResult : AuthorizationResult)
    (options : InventoryOptions) : option AuthorizationResult :=
  match opt_formatId options, formatIds authResult with
  | Some f, Some fs =>
      if existsb (λ f', bool_decide (fi_agent_url f' = fi_agent_url f)
                        && bool_decide (fi_id f' = fi_id f)) fs
      then None
      else Some (denied "Format not in authorized scope")
  | _, _ => None
  end.

(** [validateInventoryAuthorization] after
    [await this.isAgentAuthorized(agentUrl, domain)]: [authResult] is what
    that call resolved to. *)
Definition validateInventoryAuthorization (authResult : AuthorizationResult)
    (options : InventoryOptions) : AuthorizationResult :=
  if negb (authorized authResult) then authResult
  else
    match auth_scope authResult with
    | Some scope_full | Some scope_exclusive => authResult
    | _ =>
        match tag_denial authResult options with
        | Some d => d
        | None =>
            match channel_denial authResult options with
            | Some d => d
            | None =>
                match format_denial authResult options with
                | Some d => d
                | None => authResult
                end
            end
        end
    end.

(** Every cached document has passed the structural check. *)
Definition cache_valid (cache : gmap string CacheEntry) : Prop :=
  ∀ k e, cache !! k = Some e → isValidAdAgentsJson (ce_data e) = true.

(* ===================================================================== *)
(** ** Error objects and responses ([core/errors.ts]) *)
(* ===================================================================== *)

Record ErrorDetail : Type := {
  ed_code : string;
  ed_message : string;
  ed_field : option string;
  ed_suggestion : option string;
}.

(** The [options] of the [AdcpError] constructor. *)
Record ErrorOptions : Type := {
  eo_field : option string;
  eo_suggestion : option string;
  eo_details : option (list ErrorDetail);
}.

(** An instance of [AdcpError] or of one of its subclasses. *)
Record AdcpErrorObject : Type := {
  err_name : string;
  err_code : string;
  err_message : string;
  err_field : option string;
  err_suggestion : option string;
  err_details : option (list ErrorDetail);
}.

Definition new_AdcpError (code message : string)
    (options : option ErrorOptions) : AdcpErrorObject :=
  {| err_name := "AdcpError";
     err_code := code;
     err_message := message;
     err_field := options ≫= eo_field;
     err_suggestion := options ≫= eo_suggestion;
     err_details := options ≫= eo_details |}.

Definition rename (name : string) (e : AdcpErrorObject) : AdcpErrorObject :=
  {| err_name := name; err_code := err_code e; err_message := err_message e;
     err_field := err_field e; err_suggestion := err_suggestion e;
     err_details := err_details e |}.

Definition toErrorDetail (e : AdcpErrorObject) : ErrorDetail :=
  {| ed_code := err_code e; ed_message := err_message e;
     ed_field := err_field e; ed_suggestion := err_suggestion e |}.

Definition fromErrorDetail (detail : ErrorDetail) : AdcpErrorObject :=
  new_AdcpError (ed_code detail) (ed_message detail)
    (Some {| eo_field := ed_field detail;
             eo_suggestion := ed_suggestion detail;
             eo_details := None |}).

(** The subclasses; their [options] have no [details], except for
    [ValidationError], whose [field] is an argument of its own. *)
Definition new_AuthenticationError (message : string)
    (field suggestion : option string) : AdcpErrorObject :=
  rename "AuthenticationError"
    (new_AdcpError "AUTH_REQUIRED" message
       (Some {| eo_field := field; eo_suggestion := suggestion;
                eo_details := None |})).

Definition new_AuthorizationError (message : string)
    (field suggestion : option string) : AdcpErrorObject :=
  rename "AuthorizationError"
    (new_AdcpError "UNAUTHORIZED" message
       (Some {| eo_field := field; eo_suggestion := suggestion;
                eo_details := None |})).

Definition new_ValidationError (message : string) (field : option string)
    (suggestion : option string) (details : option (list ErrorDetail))
  : AdcpErrorObject :=
  rename "ValidationError"
    (new_AdcpError "INVALID_REQUEST" message
       (Some {| eo_field := field; eo_suggestion := suggestion;
                eo_details := details |})).

Definition new_NotFoundError (code message : string)
    (field suggestion : option string) : AdcpErrorObject :=
  rename "NotFoundError"
    (new_AdcpError code message
       (Some {| eo_field := field; eo_suggestion := suggestion;
                eo_details := None |})).

Record ErrorResponse : Type := {
  er_message : string;
  er_errors : list ErrorDetail;
  er_context_id : option string;
  er_task_id : option string;
}.

Record ErrorResponseOptions : Type := {
  ero_message : option string;
  ero_context_id : option string;
  ero_task_id : option string;
}.

(** [a || b] where [a] is an optional string. *)
Definition or_string (a : option string) (b : string) : string :=
  match truthy_context a with Some s => s | None => b end.

(** [status: 'failed'] is constant and left out. *)
Definition createErrorResponse (errors : list ErrorDetail)
    (options : option ErrorResponseOptions) : ErrorResponse :=
  {| er_message :=
       or_string (options ≫= ero_message)
         (or_string (ed_message <$> head errors) "An error occurred");
     er_errors := errors;
     er_context_id := options ≫= ero_context_id;
     er_task_id := options ≫= ero_task_id |}.

(** The [case] groups of [getHttpStatusForError]. *)
Definition HTTP_401 : list string :=
  ["AUTH_REQUIRED"; "AUTH_INVALID"; "AUTH_EXPIRED"].

Definition HTTP_403 : list string :=
  ["UNAUTHORIZED"; "FORBIDDEN"; "DEPLOYMENT_UNAUTHORIZED";
   "AGENT_ACCESS_DENIED"].

Definition HTTP_404 : list string :=
  ["SIGNAL_AGENT_SEGMENT_NOT_FOUND"; "AGENT_NOT_FOUND"; "PRODUCT_NOT_FOUND";
   "MEDIA_BUY_NOT_FOUND"; "PACKAGE_NOT_FOUND"; "CREATIVE_NOT_FOUND";
   "PRINCIPAL_NOT_FOUND"; "FORMAT_NOT_FOUND"].

Definition HTTP_400 : list string :=
  ["INVALID_REQUEST"; "FORMAT_INCOMPATIBLE"; "BUDGET_INSUFFICIENT";
   "TARGETING_TOO_NARROW"; "POLICY_VIOLATION"; "INVALID_PRICING_OPTION";
   "INVALID_DATE_RANGE"; "CONTEXT_REQUIRED"; "INVALID_STATUS_FILTER";
   "INVALID_FORMAT"; "FORMAT_MISMATCH"; "MISSING_REQUIRED_ASSET";
   "INVALID_ASSET_TYPE"; "ASSET_TOO_LARGE"; "INVALID_DIMENSIONS";
   "INVALID_DURATION"; "MANIFEST_VALIDATION_FAILED"; "INVALID_PRICING_MODEL"].

Definition getHttpStatusForError (code : string) : Z :=
  if bool_decide (code ∈ HTTP_401) then 401
  else if bool_decide (code ∈ HTTP_403) then 403
  else if bool_decide (code ∈ HTTP_404) then 404
  else if bool_decide (code ∈ HTTP_400) then 400
  else if bool_decide (code = "RATE_LIMITED") then 429
  else if bool_decide (code = "SERVICE_UNAVAILABLE") then 503
  else if bool_decide (code = "TIMEOUT") then 504
  else if bool_decide (code = "NOT_IMPLEMENTED") then 501
  else 500.

(* ===================================================================== *)
(** ** More concrete inputs *)
(* ===================================================================== *)

(** A handler that asks for more input. *)
Definition hesitates : Handlers := answers (Some input_required).

Definition chat_request : A2aTaskRequest :=
  {| req_skill := None;
     req_parts := [TextPart "Which AUDIENCE segments do you have?"];
     req_metadata := None; req_webhook := None |}.

Definition signals_only : A2aServerConfig :=
  {| has_signals := true; has_mediaBuy := false; has_creative := false |}.

Definition some_agent : AgentIdentity :=
  {| ai_name := "Signals agent"; ai_description := None;
     ai_url := "https://agent.example"; ai_version := "2.6.0";
     ai_agentType := signal_agent |}.

Definition good_agent : JValue :=
  JObj (<["url" := JStr "https://agent.example"]>
       (<["authorized_for" := JStr "All display inventory"]>
       (<["scope" := JStr "full"]> ∅))).

Definition good_document : JValue :=
  JObj (<["version" := JStr "1.0"]>
       (<["contact" := JObj (<["name" := JStr "Publisher"]> ∅)]>
       (<["authorized_agents" := JArr [good_agent]]> ∅))).

(** Accepted by the service, refused by the validator: a legacy entry
    with [name] instead of [authorized_for]. *)
Definition legacy_document : JValue :=
  JObj (<["version" := JStr "1.0"]>
       (<["publisher" := JObj (<["name" := JStr "Publisher"]> ∅)]>
       (<["authorized_agents" :=
            JArr [JObj (<["agent_url" := JStr "https://agent.example"]>
                       (<["name" := JStr "Agent"]>
                       (<["scope" := JStr "full"]> ∅)))]]> ∅))).

Definition serves (data : JValue) : string → FetchOutcome :=
  λ _, FetchResponse true (Some data).

Definition partial_grant : AuthorizationResult :=
  {| authorized := true; reason := None; auth_scope := Some scope_partial;
     propertyTags := Some ["sports"; "news"]; channels := Some ["video"];
     formatIds := None; commissionPercentage := None;
     validFrom := None; validUntil := None |}.

Definition sports_video : InventoryOptions :=
  {| opt_propertyTag := Some "sports"; opt_channel := Some "video";
     opt_formatId := None |}.

(** A request that names a routed skill and has no Parts. *)
Definition bare_signals_request : A2aTaskRequest :=
  {| req_skill := Some "get_signals"; req_parts := [];
     req_metadata := None; req_webhook := None |}.


(** A text request for the natural-language fallback. *)
Definition audience_request : A2aTaskRequest :=
  {| req_skill := None; req_parts := [TextPart "an audience of cyclists"];
     req_metadata := None; req_webhook := None |}.

(* ===================================================================== *)
(** ** Basic facts: the monad, the event fan-out *)
(* ===================================================================== *)

Ltac munfold :=
  unfold mbind, M_bind, mret, M_ret, gets, modify, lift, try_catch in *.

Lemma add_deliveries_nil (s : Server) : add_deliveries [] s = s.
Proof. destruct s. unfold add_deliveries; simpl. by rewrite app_nil_r. Qed.

Lemma add_deliveries_app (ds ds' : list (SseListener * SseEvent)) (s : Server) :
  add_deliveries ds' (add_deliveries ds s) = add_deliveries (ds ++ ds') s.
Proof. unfold add_deliveries; simpl. by rewrite app_assoc. Qed.

Lemma call_listener_caught (l : SseListener) (ev : SseEvent) (s : Server) :
  try_catch (call_listener l ev) (λ _, mret ()) s
  = (Ok (), add_deliveries [(l, ev)] s).
Proof. unfold try_catch, call_listener. by destruct (lthrows l). Qed.

(** The loop of [emitEvent] calls every listener once, in order, and a
    listener that throws does not stop it. *)
Lemma for_each_listener (ls : list SseListener) (ev : SseEvent) (s : Server) :
  for_each ls (λ l, try_catch (call_listener l ev) (λ _, mret ())) s
  = (Ok (), add_deliveries ((λ l, (l, ev)) <$> ls) s).
Proof.
  revert s. induction ls as [|l ls IH]; intros s; simpl.
  - by rewrite add_deliveries_nil.
  - unfold mbind, M_bind. rewrite call_listener_caught, IH.
    by rewrite add_deliveries_app.
Qed.

Lemma emitEvent_eq (taskId : string) (ev : SseEvent) (s : Server) :
  emitEvent taskId ev s = (Ok (), add_deliveries (broadcast taskId ev s) s).
Proof. unfold emitEvent, broadcast. apply for_each_listener. Qed.

Lemma listeners_of_set_tasks f taskId s :
  listeners_of taskId (set_tasks f s) = listeners_of taskId s.
Proof. done. Qed.

Lemma listeners_of_add_deliveries ds taskId s :
  listeners_of taskId (add_deliveries ds s) = listeners_of taskId s.
Proof. done. Qed.

Lemma broadcast_set_tasks f taskId ev s :
  broadcast taskId ev (set_tasks f s) = broadcast taskId ev s.
Proof. done. Qed.

Lemma broadcast_add_deliveries ds taskId ev s :
  broadcast taskId ev (add_deliveries ds s) = broadcast taskId ev s.
Proof. done. Qed.

(** [completeTask] on a stored task: the record and the two events. *)
Lemma completeTask_eq taskId m st now s t :
  tasks s !! taskId = Some t →
  completeTask taskId m st now s
  = (Ok (),
     add_deliveries
       (broadcast (id t) (message_event m now) s
        ++ broadcast (id t) (complete_event (completed_task m st now t) now) s)
       (set_tasks (<[taskId := completed_task m st now t]>) s)).
Proof.
  intros Ht. unfold completeTask. munfold. rewrite Ht.
  rewrite !emitEvent_eq. by rewrite add_deliveries_app.
Qed.

Lemma failTask_eq taskId code message now s t :
  tasks s !! taskId = Some t →
  failTask taskId code message now s
  = (Ok (),
     add_deliveries (broadcast (id t) (error_event code message now) s)
       (set_tasks (<[taskId := failed_task message now t]>) s)).
Proof.
  intros Ht. unfold failTask. munfold. rewrite Ht.
  by rewrite emitEvent_eq.
Qed.

(* ===================================================================== *)
(** ** The parser: what an invocation holds *)
(* ===================================================================== *)

Section Parser.

Lemma foldl_snoc {A B} (f : A → B → A) (a : A) (l : list B) (x : B) :
  foldl f a (l ++ [x]) = f (foldl f a l) x.
Proof. by rewrite foldl_app. Qed.

Lemma omap_snoc {A B} (f : A → option B) (l : list A) (x : A) :
  omap f (l ++ [x]) = omap f l ++ match f x with Some y => [y] | None => [] end.
Proof. rewrite omap_app. simpl. by destruct (f x). Qed.

Lemma parse_context (ps : list MessagePart) :
  acc_context (foldl parse_part parse_init ps) = last (text_parts ps).
Proof.
  induction ps as [|p ps IH] using rev_ind; [done|].
  rewrite foldl_snoc. unfold text_parts in *. rewrite omap_snoc.
  destruct p; simpl; rewrite ?app_nil_r; try done.
  by rewrite last_snoc.
Qed.

Lemma parse_files (ps : list MessagePart) :
  acc_files (foldl parse_part parse_init ps) = file_parts ps.
Proof.
  induction ps as [|p ps IH] using rev_ind; [done|].
  rewrite foldl_snoc. unfold file_parts in *. rewrite omap_snoc.
  destruct p; simpl; rewrite ?app_nil_r; try done.
  by rewrite IH.
Qed.

Lemma parse_parameters (ps : list MessagePart) (k : string) :
  acc_parameters (foldl parse_part parse_init ps) !! k
  = merged_at k (data_parts ps).
Proof.
  induction ps as [|p ps IH] using rev_ind; [done|].
  rewrite foldl_snoc. unfold merged_at, data_parts in *. rewrite omap_snoc.
  destruct p as [t|d m|u m n]; simpl; rewrite ?app_nil_r; try done.
  unfold Js.spread. rewrite lookup_union, omap_snoc, IH.
  destruct (d !! k) as [v|] eqn:Hd; simpl.
  - rewrite last_snoc. by destruct (last _).
  - rewrite app_nil_r. by destruct (last _).
Qed.

End Parser.

(** C5, as the code has it.  For every request, the invocation built by
    [parseSkillInvocation] has as [context] the text of the LAST text Part
    (none when there is no text Part); its [parameters], read at any key,
    give the value of the last structured-data Part that has the key (the
    shallow merge in list order, later Parts winning); and its [files] are
    all the file Parts in their original order, the field being absent when
    there is no file Part. *)
Theorem parseSkillInvocation_spec (request : A2aTaskRequest) :
  let inv := parseSkillInvocation request in
  let ps := req_parts request in
  context inv = last (text_parts ps)
  ∧ (∀ k, parameters inv !! k = merged_at k (data_parts ps))
  ∧ files inv = (if decide (file_parts ps = []) then None
                 else Some (file_parts ps)).
Proof.
  simpl. unfold parseSkillInvocation. simpl.
  split_and!.
  - apply parse_context.
  - apply parse_parameters.
  - rewrite parse_files. destruct (file_parts _); by case_decide.
Qed.

(** With at most one text Part the first and the last coincide: the
    [context] is then the text of the only text Part. *)
Lemma parse_context_only (request : A2aTaskRequest) (t : string) :
  text_parts (req_parts request) = [t] →
  context (parseSkillInvocation request) = Some t.
Proof.
  intros H. unfold parseSkillInvocation; simpl.
  by rewrite parse_context, H.
Qed.

(** C5 as stated fails: with two text Parts the [context] is the text of
    the second one, not of the first. *)
Lemma parse_context_not_first :
  head (text_parts (req_parts two_texts)) = Some "find signals"
  ∧ context (parseSkillInvocation two_texts) = Some "for sports fans"
  ∧ context (parseSkillInvocation two_texts)
    ≠ head (text_parts (req_parts two_texts)).
Proof. split_and!; [reflexivity | reflexivity | discriminate]. Qed.

(* ===================================================================== *)
(** ** Cancel *)
(* ===================================================================== *)

Lemma cancelTask_missing taskId now s :
  tasks s !! taskId = None → cancelTask taskId now s = (Ok false, s).
Proof. intros H. unfold cancelTask. munfold. by rewrite H. Qed.

Lemma cancelTask_refused taskId now s t :
  tasks s !! taskId = Some t →
  cancel_refused (state (status t)) = true →
  cancelTask taskId now s = (Ok false, s).
Proof.
  intros H Hr. unfold cancelTask. munfold. rewrite H.
  unfold cancel_refused in Hr. by rewrite Hr.
Qed.

Lemma cancelTask_live taskId now s t :
  tasks s !! taskId = Some t →
  cancel_refused (state (status t)) = false →
  cancelTask taskId now s
  = (Ok true,
     add_deliveries (broadcast taskId (cancel_event now) s)
       (set_tasks (<[taskId := cancelled_task now t]>) s)).
Proof.
  intros H Hr. unfold cancelTask. munfold. rewrite H.
  unfold cancel_refused in Hr. rewrite Hr.
  by rewrite emitEvent_eq.
Qed.

Lemma not_terminal_not_refused st :
  is_terminal st = false → cancel_refused st = false.
Proof. by destruct st. Qed.

Lemma cancelled_not_error_code : "CANCELLED" ∉ ERROR_CODES.
Proof. unfold ERROR_CODES. rewrite !not_elem_of_cons. split_and!; try discriminate. apply not_elem_of_nil. Qed.

(** C2, as the code has it.  For every task that exists and is not in a
    terminal state, Cancel returns [true], sets the task's state to
    [failed] (not [canceled]) with the message "Task cancelled", leaves
    its messages and artifacts as they were, and calls every listener
    registered for the task once, in registration order, with an event of
    type [error] whose code is "CANCELLED".  That code is what tells a
    cancellation from a handler failure: it is no [ErrorCode], so the
    error event of a failed execution never carries it. *)
Theorem cancelTask_live_spec (taskId now : string) (s : Server) (t : A2aTask) :
  tasks s !! taskId = Some t →
  is_terminal (state (status t)) = false →
  ∃ s' t',
    cancelTask taskId now s = (Ok true, s')
    ∧ tasks s' !! taskId = Some t'
    ∧ state (status t') = failed
    ∧ st_message (status t') = Some "Task cancelled"
    ∧ messages t' = messages t ∧ artifacts t' = artifacts t
    ∧ delivered s'
      = delivered s ++ ((λ l, (l, cancel_event now)) <$> listeners_of taskId s)
    ∧ ev_type (cancel_event now) = sse_error
    ∧ ev_data (cancel_event now) = ErrorData "CANCELLED" "Task was cancelled"
    ∧ (∀ e, well_typed e → error_code e ≠ "CANCELLED").
Proof.
  intros Ht Hnt. eexists _, (cancelled_task now t).
  split; [apply (cancelTask_live _ _ _ _ Ht), not_terminal_not_refused, Hnt|].
  split_and!; try done.
  - simpl. by rewrite lookup_insert_eq.
  - intros [c m| |] Hw; simpl; try discriminate.
    intros ->. by apply cancelled_not_error_code.
Qed.

Lemma cancelTask_live_witness :
  tasks working_server !! "task-1" = Some working_task
  ∧ is_terminal (state (status working_task)) = false
  ∧ ∃ s' t',
      cancelTask "task-1" t9 working_server = (Ok true, s')
      ∧ tasks s' !! "task-1" = Some t'
      ∧ state (status t') = failed
      ∧ st_message (status t') = Some "Task cancelled"
      ∧ messages t' = messages working_task
      ∧ artifacts t' = artifacts working_task
      ∧ delivered s'
        = delivered working_server
          ++ ((λ l, (l, cancel_event t9)) <$> listeners_of "task-1" working_server)
      ∧ ev_type (cancel_event t9) = sse_error
      ∧ ev_data (cancel_event t9) = ErrorData "CANCELLED" "Task was cancelled"
      ∧ (∀ e, well_typed e → error_code e ≠ "CANCELLED").
Proof.
  split; [reflexivity|]. split; [reflexivity|].
  apply (cancelTask_live_spec "task-1" t9 working_server working_task);
    reflexivity.
Defined.

(** C2 as stated fails: cancelling a task that is being worked on leaves
    it in the state [failed], not [canceled]. *)
Lemma cancel_sets_failed_not_canceled :
  tasks working_server !! "task-1" = Some working_task
  ∧ is_terminal (state (status working_task)) = false
  ∧ (cancelTask "task-1" t9 working_server).1 = Ok true
  ∧ task_state "task-1" (cancelTask "task-1" t9 working_server).2 = Some failed
  ∧ task_state "task-1" (cancelTask "task-1" t9 working_server).2
    ≠ Some canceled.
Proof. split_and!; try reflexivity. vm_compute. discriminate. Qed.

(** Cancel twice: the second call is refused, whatever the first one did. *)
Lemma cancelTask_twice (taskId now now' : string) (s : Server) :
  cancelTask taskId now' (cancelTask taskId now s).2
  = (Ok false, (cancelTask taskId now s).2).
Proof.
  destruct (tasks s !! taskId) as [t|] eqn:Ht.
  - destruct (cancel_refused (state (status t))) eqn:Hr.
    + rewrite (cancelTask_refused _ _ _ t Ht Hr). simpl.
      by apply (cancelTask_refused _ _ _ t).
    + rewrite (cancelTask_live _ _ _ t Ht Hr). simpl.
      apply (cancelTask_refused _ _ _ (cancelled_task now t)); [|done].
      simpl. by rewrite lookup_insert_eq.
  - rewrite (cancelTask_missing _ _ _ Ht). simpl.
    by apply cancelTask_missing.
Qed.

(** C9, as the code has it.  When the task does not exist, or its state is
    [completed] or [failed] (the state that Cancel itself records), Cancel
    returns [false] and leaves the whole server as it was: no listener is
    called and no task is written. *)
Theorem cancelTask_noop_spec (taskId now : string) (s : Server) :
  (tasks s !! taskId = None
   ∨ ∃ t, tasks s !! taskId = Some t
          ∧ (state (status t) = completed ∨ state (status t) = failed)) →
  cancelTask taskId now s = (Ok false, s).
Proof.
  intros [H|(t & Ht & Hst)].
  - by apply cancelTask_missing.
  - apply (cancelTask_refused _ _ _ t Ht).
    unfold cancel_refused. destruct Hst as [-> | ->]; done.
Qed.

Lemma cancelTask_noop_witness :
  (tasks completed_server !! "task-1" = None
   ∨ ∃ t, tasks completed_server !! "task-1" = Some t
          ∧ (state (status t) = completed ∨ state (status t) = failed))
  ∧ cancelTask "task-1" t9 completed_server = (Ok false, completed_server).
Proof.
  assert (tasks completed_server !! "task-1" = None
   ∨ ∃ t, tasks completed_server !! "task-1" = Some t
          ∧ (state (status t) = completed ∨ state (status t) = failed)) as H.
  { right. eexists. split; [reflexivity|]. left. reflexivity. }
  split; [exact H|].
  exact (cancelTask_noop_spec "task-1" t9 completed_server H).
Defined.

(** C9 as stated fails on the terminal state [canceled]: a task whose
    handler declared [canceled] is cancelled again; Cancel returns [true],
    rewrites the state to [failed] and calls the watcher. *)
Lemma cancel_of_canceled_task_proceeds :
  task_state "task-1" handler_canceled_server = Some canceled
  ∧ is_terminal canceled = true
  ∧ (cancelTask "task-1" t9 handler_canceled_server).1 = Ok true
  ∧ task_state "task-1" (cancelTask "task-1" t9 handler_canceled_server).2
    = Some failed
  ∧ delivered (cancelTask "task-1" t9 handler_canceled_server).2
    = delivered handler_canceled_server ++ [(watcher, cancel_event t9)]
  ∧ cancelTask "task-1" t9 handler_canceled_server
    ≠ (Ok false, handler_canceled_server).
Proof.
  split_and!; try (vm_compute; reflexivity).
  intros H. apply (f_equal fst) in H. vm_compute in H. discriminate.
Qed.

(* ===================================================================== *)
(** ** Continue *)
(* ===================================================================== *)

Lemma continueTask_missing taskId parts now msg_id now' s :
  tasks s !! taskId = None →
  continueTask taskId parts now msg_id now' s = (Ok None, s).
Proof. intros H. unfold continueTask. munfold. by rewrite H. Qed.

Lemma continueTask_eq taskId parts now msg_id now' s t :
  tasks s !! taskId = Some t →
  let t' := continued_task parts now msg_id now' t in
  continueTask taskId parts now msg_id now' s
  = (Ok (Some (response_of t')),
     add_deliveries
       (broadcast taskId (status_event (resumed_status now) now) s
        ++ broadcast (id t) (message_event ack_message now') s
        ++ broadcast (id t) (complete_event t' now') s)
       (set_tasks (<[taskId := t']>) s)).
Proof.
  intros Ht t'. unfold continueTask.
  unfold mbind at 1, M_bind at 1, gets at 1. rewrite Ht.
  unfold mbind at 1, M_bind at 1, modify at 1.
  unfold mbind at 1, M_bind at 1. rewrite emitEvent_eq.
  unfold mbind at 1, M_bind at 1.
  erewrite completeTask_eq; [|simpl; apply lookup_insert_eq].
  munfold. simpl. rewrite lookup_insert_eq. simpl.
  f_equal. unfold add_deliveries, set_tasks; simpl.
  rewrite insert_insert_eq, <- !app_assoc. done.
Qed.





(* ===================================================================== *)
(** ** [processTask]: outcomes *)
(* ===================================================================== *)

Lemma webhook_for_eq taskId webhook event ts data s t :
  tasks s !! taskId = Some t →
  webhook_for taskId webhook event ts data s
  = (Ok (),
     with_webhook webhook
       {| wp_task_id := id t; wp_event := event; wp_status := status t;
          wp_timestamp := ts; wp_data := data |} s).
Proof.
  intros Ht. unfold webhook_for, with_webhook.
  destruct webhook as [c|]; [|done].
  unfold sendWebhook. munfold. by rewrite Ht.
Qed.

Lemma processTask_throw taskId request principal webhook h z s t e :
  tasks s !! taskId = Some t →
  executeSkill (config s) h (parseSkillInvocation request) principal = Throw e →
  processTask taskId request principal webhook h z s
  = (Ok (), failed_server taskId e z webhook t s).
Proof.
  intros Ht He. unfold processTask, try_catch.
  unfold mbind at 1, M_bind at 1, gets at 1.
  unfold mbind at 1, M_bind at 1, lift at 1. rewrite He.
  unfold mbind at 1, M_bind at 1.
  rewrite (failTask_eq _ _ _ _ _ _ Ht).
  erewrite webhook_for_eq; [|simpl; by rewrite lookup_insert_eq].
  reflexivity.
Qed.

Lemma processTask_return taskId request principal webhook h z s t result :
  tasks s !! taskId = Some t →
  executeSkill (config s) h (parseSkillInvocation request) principal = Ok result →
  processTask taskId request principal webhook h z s
  = (Ok (), succeeded_server taskId result z webhook t s).
Proof.
  intros Ht He. unfold processTask, try_catch.
  unfold mbind at 1, M_bind at 1, gets at 1.
  unfold mbind at 1, M_bind at 1, lift at 1. rewrite He.
  unfold succeeded_server, finished_task, artifact_events, with_artifact.
  destruct (sr_artifact result) as [[name data]|].
  - unfold mbind at 1, M_bind at 1.
    unfold mbind at 1, M_bind at 1.
    unfold mbind at 1, M_bind at 1, update_task at 1, modify at 1.
    rewrite emitEvent_eq.
    erewrite completeTask_eq;
      [|simpl; rewrite lookup_alter_eq, Ht; reflexivity].
    erewrite webhook_for_eq; [|simpl; by rewrite lookup_insert_eq].
    simpl. do 2 f_equal.
    unfold add_deliveries, set_tasks, broadcast; simpl.
    rewrite app_nil_r, <- !app_assoc.
    f_equal. apply map_eq. intros k.
    destruct (decide (taskId = k)) as [->|Hne].
    + by rewrite !lookup_insert_eq.
    + by rewrite !lookup_insert_ne, lookup_alter_ne.
  - unfold mbind at 1, M_bind at 1.
    unfold mbind at 1, M_bind at 1, mret at 1, M_ret at 1.
    rewrite (completeTask_eq _ _ _ _ _ _ Ht).
    erewrite webhook_for_eq; [|simpl; by rewrite lookup_insert_eq].
    reflexivity.
Qed.

(* ===================================================================== *)
(** ** Exceptions stop at [processTask] *)
(* ===================================================================== *)

Section NeverThrows.

Context {A B : Type}.

Lemma never_throws_ret (a : A) : never_throws (mret a).
Proof. intros s. by exists a. Qed.

Lemma never_throws_gets (f : Server → A) : never_throws (gets f).
Proof. intros s. by eexists. Qed.

Lemma never_throws_bind (m : M A) (f : A → M B) :
  never_throws m → (∀ a, never_throws (f a)) → never_throws (m ≫= f).
Proof.
  intros Hm Hf s. destruct (Hm s) as [a Ha].
  unfold mbind, M_bind. destruct (m s) as [[a'|e] s']; simpl in Ha; [|done].
  apply Hf.
Qed.


End NeverThrows.

Lemma never_throws_modify (f : Server → Server) : never_throws (modify f).
Proof. intros s. by eexists. Qed.

Lemma never_throws_emitEvent taskId ev : never_throws (emitEvent taskId ev).
Proof. intros s. rewrite emitEvent_eq. by eexists. Qed.

Lemma never_throws_completeTask taskId m st now :
  never_throws (completeTask taskId m st now).
Proof.
  unfold completeTask.
  apply never_throws_bind; [apply never_throws_gets|]. intros [t|].
  - repeat (apply never_throws_bind; intros);
      auto using never_throws_modify, never_throws_emitEvent.
  - apply never_throws_ret.
Qed.





(** By contrast [subscribeToTask] calls the listener outside any [try]:
    a listener that throws on the initial status makes the call throw. *)
Lemma subscribeToTask_can_throw :
  (subscribeToTask "task-1" faulty_watcher t9 working_server).1
  = Throw (JsError "socket closed").
Proof. reflexivity. Qed.

(** What [executeSkill] does with a rejection of the routed handler. *)
Lemma executeSkill_handler_throws cfg h invocation principal m e :
  route (skill invocation) = Some m →
  enabled cfg (protocol_of m) = true →
  h m (parameters invocation) principal = Throw e →
  executeSkill cfg h invocation principal = Throw e.
Proof. intros Hr Hen Hh. unfold executeSkill. by rewrite Hr, Hen, Hh. Qed.

Lemma exec_done_throw i h z s ex t e :
  pending s !! i = Some ex →
  tasks s !! ex_task ex = Some t →
  executeSkill (config s) h (parseSkillInvocation (ex_request ex))
    (ex_principal ex) = Throw e →
  exec_done i h z s
  = (Ok (), failed_server (ex_task ex) e z (ex_webhook ex) t
              (set_pending (delete i) s)).
Proof.
  intros Hp Ht He. unfold exec_done. rewrite Hp.
  by apply processTask_throw.
Qed.

Lemma exec_done_return i h z s ex t result :
  pending s !! i = Some ex →
  tasks s !! ex_task ex = Some t →
  executeSkill (config s) h (parseSkillInvocation (ex_request ex))
    (ex_principal ex) = Ok result →
  exec_done i h z s
  = (Ok (), succeeded_server (ex_task ex) result z (ex_webhook ex) t
              (set_pending (delete i) s)).
Proof.
  intros Hp Ht He. unfold exec_done. rewrite Hp.
  by apply processTask_return.
Qed.






(* ===================================================================== *)
(** ** The state after each operation *)
(* ===================================================================== *)

Lemma createTask_eq request principal task_uuid now msg_id s :
  createTask request principal task_uuid now msg_id s
  = (Ok {| task_id := "task-" +:+ task_uuid;
           resp_status := status (new_task request principal task_uuid now msg_id);
           resp_messages := None; resp_artifacts := None |},
     set_pending (λ p, p ++ [new_execution request principal task_uuid])
       (set_tasks (<["task-" +:+ task_uuid :=
                     new_task request principal task_uuid now msg_id]>) s)).
Proof. reflexivity. Qed.

Lemma subscribeToTask_state taskId l now s :
  (subscribeToTask taskId l now s).2
  = match tasks s !! taskId with
    | Some t => log_delivery l (status_event (status t) now) (registered taskId l s)
    | None => registered taskId l s
    end.
Proof.
  unfold subscribeToTask, registered.
  unfold mbind at 1, M_bind at 1, gets at 1.
  destruct (taskListeners s !! taskId) as [r|] eqn:Hr.
  - munfold. simpl. destruct (tasks s !! taskId) as [t|]; [|done].
    unfold call_listener. by destruct (lthrows l).
  - munfold. simpl.
    assert (set_sets (alter (Js.set_add l) (next_ref s))
              (set_taskListeners <[taskId:=next_ref s]>
                 (set_sets <[next_ref s:=[]]>
                    (set_next_ref (S (next_ref s)) s)))
            = set_taskListeners <[taskId:=next_ref s]>
                (set_sets <[next_ref s:=[l]]>
                   (set_next_ref (S (next_ref s)) s))) as ->.
    { unfold set_sets, set_taskListeners, set_next_ref; simpl.
      by rewrite alter_insert_eq. }
    destruct (tasks s !! taskId) as [t|]; [|done].
    unfold call_listener. by destruct (lthrows l).
Qed.

Lemma unsubscribe_eq u s :
  unsubscribe u s
  = (Ok (),
     let s1 := set_sets (alter (Js.set_delete (u_listener u)) (u_listeners u)) s in
     match sets s1 !! u_listeners u with
     | Some [] => set_taskListeners (delete (u_taskId u)) s1
     | _ => s1
     end).
Proof.
  unfold unsubscribe. munfold. simpl.
  destruct (alter _ _ _ !! _) as [[|]|]; done.
Qed.

(* ===================================================================== *)
(** ** Invariants of the reachable states *)
(* ===================================================================== *)

Lemma filter_delete_length {A} (P : A → Prop) `{∀ x, Decision (P x)}
    (l : list A) (i : nat) (x : A) :
  l !! i = Some x →
  length (filter P (delete i l)) + (if decide (P x) then 1 else 0)
  = length (filter P l).
Proof.
  intros Hi. rewrite delete_take_drop.
  rewrite <- (take_drop_middle l i x Hi) at 3.
  rewrite !filter_app, filter_cons, !length_app.
  destruct (decide (P x)); simpl; lia.
Qed.

Lemma webhooks_of_with_webhook k webhook p s :
  webhooks_of k (with_webhook webhook p s)
  = webhooks_of k s
    ++ match webhook with
       | Some _ => if decide (wp_task_id p = k) then [p] else []
       | None => []
       end.
Proof.
  unfold webhooks_of, with_webhook. destruct webhook as [c|]; simpl.
  - rewrite fmap_app, filter_app. simpl. rewrite filter_cons, filter_nil.
    done.
  - by rewrite app_nil_r.
Qed.

Lemma tasks_wf_init cfg : tasks_wf (init cfg).
Proof.
  split; simpl.
  - intros k t H. by rewrite lookup_empty in H.
  - intros ex H. by apply elem_of_nil in H.
  - intros p H. by apply elem_of_nil in H.
  - intros k. unfold webhooks_of, pending_of. simpl. lia.
Qed.

(** Writing a record over a stored one, under the same id. *)
Lemma tasks_wf_rewrite s s' k t t' :
  tasks_wf s →
  tasks s !! k = Some t → id t' = id t →
  tasks s' = <[k := t']> (tasks s) →
  pending s' = pending s → webhooks s' = webhooks s →
  tasks_wf s'.
Proof.
  intros [Hids Hpend Hhooks Honce] Ht Hid Htasks Hp Hw. split.
  - intros k' t0. rewrite Htasks. intros [[-> <-]|[_ H0]]%lookup_insert_Some.
    + rewrite Hid. by apply Hids.
    + by apply Hids.
  - intros ex. rewrite Hp, Htasks. intros Hex%Hpend.
    rewrite lookup_insert_is_Some. destruct (decide (k = ex_task ex)); auto.
  - intros p. rewrite Hw, Htasks. intros Hin%Hhooks.
    rewrite lookup_insert_is_Some. destruct (decide (k = wp_task_id p)); auto.
  - intros k'. unfold webhooks_of, pending_of. rewrite Hw, Hp. apply Honce.
Qed.

Lemma filter_none {A} (P : A → Prop) `{∀ x, Decision (P x)} (l : list A) :
  (∀ x, x ∈ l → ¬ P x) → filter P l = [].
Proof.
  intros Hl. apply elem_of_nil_inv. intros x [HP Hx]%list_elem_of_filter.
  by apply (Hl x).
Qed.

Lemma fresh_no_webhooks s k :
  tasks_wf s → tasks s !! k = None → webhooks_of k s = [].
Proof.
  intros Hwf Hk. apply filter_none. intros p Hp%(wf_hooks _ Hwf) Heq.
  rewrite Heq, Hk in Hp. by destruct Hp.
Qed.

Lemma fresh_no_pending s k :
  tasks_wf s → tasks s !! k = None → pending_of k s = [].
Proof.
  intros Hwf Hk. apply filter_none. intros ex Hex%(wf_pending _ Hwf) Heq.
  rewrite Heq, Hk in Hex. by destruct Hex.
Qed.

Lemma tasks_wf_create request principal task_uuid now msg_id s :
  tasks_wf s →
  tasks s !! ("task-" +:+ task_uuid) = None →
  tasks_wf (createTask request principal task_uuid now msg_id s).2.
Proof.
  intros Hwf Hfresh.
  pose proof (fresh_no_webhooks _ _ Hwf Hfresh) as Hnw.
  pose proof (fresh_no_pending _ _ Hwf Hfresh) as Hnp.
  destruct Hwf as [Hids Hpend Hhooks Honce]. rewrite createTask_eq. simpl.
  split; simpl.
  - intros k t [[<- <-]|[_ H0]]%lookup_insert_Some; [done|by apply Hids].
  - intros ex [Hex| ->%list_elem_of_singleton]%elem_of_app.
    + apply Hpend in Hex. rewrite lookup_insert_is_Some.
      destruct (decide ("task-" +:+ task_uuid = ex_task ex)); auto.
    + simpl. rewrite lookup_insert_eq. by eexists.
  - intros p Hin%Hhooks. rewrite lookup_insert_is_Some.
    destruct (decide ("task-" +:+ task_uuid = wp_task_id p)); auto.
  - intros k. unfold webhooks_of, pending_of in *. simpl.
    rewrite filter_app, length_app, filter_cons, filter_nil. simpl.
    destruct (decide ("task-" +:+ task_uuid = k)) as [<-|Hne]; simpl.
    + rewrite Hnw, Hnp. simpl. lia.
    + specialize (Honce k). lia.
Qed.

Lemma tasks_wf_continue taskId parts now msg_id now' s :
  tasks_wf s → tasks_wf (continueTask taskId parts now msg_id now' s).2.
Proof.
  intros Hwf. destruct (tasks s !! taskId) as [t|] eqn:Ht.
  - rewrite (continueTask_eq _ _ _ _ _ _ _ Ht). simpl.
    by apply (tasks_wf_rewrite s _ taskId t
                (continued_task parts now msg_id now' t)).
  - by rewrite (continueTask_missing _ _ _ _ _ _ Ht).
Qed.

Lemma tasks_wf_cancel taskId now s :
  tasks_wf s → tasks_wf (cancelTask taskId now s).2.
Proof.
  intros Hwf. destruct (tasks s !! taskId) as [t|] eqn:Ht.
  - destruct (cancel_refused (state (status t))) eqn:Hr.
    + by rewrite (cancelTask_refused _ _ _ t Ht Hr).
    + rewrite (cancelTask_live _ _ _ t Ht Hr). simpl.
      by apply (tasks_wf_rewrite s _ taskId t (cancelled_task now t)).
  - by rewrite (cancelTask_missing _ _ _ Ht).
Qed.

(** An operation on the listener registry leaves the tasks alone. *)
Lemma tasks_wf_same s s' :
  tasks_wf s →
  tasks s' = tasks s → pending s' = pending s → webhooks s' = webhooks s →
  tasks_wf s'.
Proof.
  intros [Hids Hpend Hhooks Honce] Ht Hp Hw.
  split; unfold webhooks_of, pending_of; rewrite ?Ht, ?Hp, ?Hw; done.
Qed.

Lemma tasks_wf_subscribe taskId l now s :
  tasks_wf s → tasks_wf (subscribeToTask taskId l now s).2.
Proof.
  intros Hwf. rewrite subscribeToTask_state.
  apply (tasks_wf_same s); [done|..];
    unfold registered;
    destruct (tasks s !! taskId), (taskListeners s !! taskId); done.
Qed.

Lemma tasks_wf_unsubscribe u s :
  tasks_wf s → tasks_wf (unsubscribe u s).2.
Proof.
  intros Hwf. rewrite unsubscribe_eq. simpl.
  apply (tasks_wf_same s); [done|..];
    destruct (alter _ _ _ !! _) as [[|]|]; done.
Qed.

(** Resuming an execution: its record is rewritten under the same id, the
    execution leaves [pending], and at most one webhook call is logged,
    for that task. *)
Lemma tasks_wf_resumed s i ex t t' ds webhook p :
  tasks_wf s →
  pending s !! i = Some ex →
  tasks s !! ex_task ex = Some t →
  id t' = id t → wp_task_id p = id t →
  tasks_wf
    (with_webhook webhook p
       (add_deliveries ds
          (set_tasks (<[ex_task ex := t']>) (set_pending (delete i) s)))).
Proof.
  intros Hwf Hi Ht Hid Hp.
  pose proof (wf_ids _ Hwf _ _ Ht) as Hk.
  destruct Hwf as [Hids Hpend Hhooks Honce]. split.
  - intros k t0.
    assert (tasks (with_webhook webhook p
              (add_deliveries ds (set_tasks (<[ex_task ex := t']>)
                 (set_pending (delete i) s))))
            = <[ex_task ex := t']> (tasks s)) as -> by by destruct webhook.
    intros [[<- <-]|[_ H0]]%lookup_insert_Some; [congruence|by apply Hids].
  - intros ex'.
    assert (tasks (with_webhook webhook p
              (add_deliveries ds (set_tasks (<[ex_task ex := t']>)
                 (set_pending (delete i) s))))
            = <[ex_task ex := t']> (tasks s)) as -> by by destruct webhook.
    assert (pending (with_webhook webhook p
              (add_deliveries ds (set_tasks (<[ex_task ex := t']>)
                 (set_pending (delete i) s))))
            = delete i (pending s)) as -> by by destruct webhook.
    intros Hex%list_elem_of_delete_inv%Hpend.
    rewrite lookup_insert_is_Some.
    destruct (decide (ex_task ex = ex_task ex')); auto.
  - intros p'.
    assert (tasks (with_webhook webhook p
              (add_deliveries ds (set_tasks (<[ex_task ex := t']>)
                 (set_pending (delete i) s))))
            = <[ex_task ex := t']> (tasks s)) as -> by by destruct webhook.
    rewrite lookup_insert_is_Some.
    destruct webhook as [c|]; simpl.
    + rewrite fmap_app. intros [Hin| ->%list_elem_of_singleton]%elem_of_app.
      * apply Hhooks in Hin.
        destruct (decide (ex_task ex = wp_task_id p')); auto.
      * left. simpl. congruence.
    + intros Hin%Hhooks.
      destruct (decide (ex_task ex = wp_task_id p')); auto.
  - intros k. rewrite webhooks_of_with_webhook, length_app.
    assert (pending_of k (with_webhook webhook p
              (add_deliveries ds (set_tasks (<[ex_task ex := t']>)
                 (set_pending (delete i) s))))
            = filter (λ ex, ex_task ex = k) (delete i (pending s))) as ->
      by by destruct webhook.
    assert (webhooks_of k (add_deliveries ds
              (set_tasks (<[ex_task ex := t']>) (set_pending (delete i) s)))
            = webhooks_of k s) as -> by done.
    pose proof (filter_delete_length (λ ex, ex_task ex = k) _ _ _ Hi) as Hlen.
    specialize (Honce k). unfold pending_of in Honce.
    destruct (decide (ex_task ex = k)) as [Hek|Hek].
    + destruct webhook; [case_decide|]; simpl; lia.
    + destruct webhook; [rewrite decide_False by congruence|]; simpl; lia.
Qed.

Lemma id_finished_task result z t : id (finished_task result z t) = id t.
Proof.
  unfold finished_task, with_artifact.
  by destruct (sr_artifact result) as [[name data]|].
Qed.

Lemma tasks_wf_exec_done i h z s :
  tasks_wf s → tasks_wf (exec_done i h z s).2.
Proof.
  intros Hwf. destruct (pending s !! i) as [ex|] eqn:Hi.
  - destruct (wf_pending _ Hwf ex) as [t Ht].
    { by eapply list_elem_of_lookup_2. }
    destruct (executeSkill (config s) h (parseSkillInvocation (ex_request ex))
                (ex_principal ex)) as [result|e] eqn:He.
    + rewrite (exec_done_return _ _ _ _ _ _ _ Hi Ht He). simpl.
      unfold succeeded_server.
      apply (tasks_wf_resumed s i ex t); try done.
      apply id_finished_task.
    + rewrite (exec_done_throw _ _ _ _ _ _ _ Hi Ht He). simpl.
      unfold failed_server.
      apply (tasks_wf_resumed s i ex t); try done; reflexivity.
  - unfold exec_done. by rewrite Hi.
Qed.

Lemma tasks_wf_step s op :
  tasks_wf s → op_allowed s op → tasks_wf (run_op op s).
Proof.
  intros Hwf Hop. destruct op; simpl.
  - by apply tasks_wf_create.
  - unfold getTask. by munfold.
  - by apply tasks_wf_continue.
  - by apply tasks_wf_cancel.
  - by apply tasks_wf_subscribe.
  - by apply tasks_wf_unsubscribe.
  - by apply tasks_wf_exec_done.
Qed.

Lemma reachable_tasks_wf cfg s : reachable cfg s → tasks_wf s.
Proof.
  induction 1 as [|s op _ IH Hop]; [apply tasks_wf_init|].
  by apply tasks_wf_step.
Qed.

(** *** The listener registry *)

Lemma NoDup_set_add `{EqDecision A} (x : A) (l : list A) :
  NoDup l → NoDup (Js.set_add x l).
Proof.
  intros Hl. unfold Js.set_add. case_decide; [done|].
  apply NoDup_app. split_and!; [done| |apply NoDup_singleton].
  intros y Hy ->%list_elem_of_singleton. done.
Qed.

Lemma elem_of_set_add `{EqDecision A} (x : A) (l : list A) :
  x ∈ Js.set_add x l.
Proof.
  unfold Js.set_add. case_decide; [done|].
  apply elem_of_app. right. by apply list_elem_of_singleton.
Qed.

Lemma NoDup_set_delete `{EqDecision A} (x : A) (l : list A) :
  NoDup l → NoDup (Js.set_delete x l).
Proof. apply NoDup_filter. Qed.

Lemma listeners_wf_init cfg : listeners_wf (init cfg).
Proof. intros k r H. simpl in H. by rewrite lookup_empty in H. Qed.

Lemma listeners_wf_same s s' :
  listeners_wf s →
  taskListeners s' = taskListeners s → sets s' = sets s →
  listeners_wf s'.
Proof. intros Hwf Hl Hs k r. rewrite Hl, Hs. apply Hwf. Qed.

Lemma listeners_wf_registered taskId l s :
  listeners_wf s → listeners_wf (registered taskId l s).
Proof.
  intros Hwf k r. unfold registered.
  destruct (taskListeners s !! taskId) as [r0|] eqn:Hr0; simpl.
  - intros (ls & Hls & Hnd)%Hwf.
    destruct (decide (r0 = r)) as [->|Hne].
    + exists (Js.set_add l ls). rewrite lookup_alter_eq, Hls.
      split; [done|by apply NoDup_set_add].
    + exists ls. by rewrite lookup_alter_ne.
  - intros Hk. destruct (decide (next_ref s = r)) as [<-|Hne].
    + exists [l]. rewrite lookup_insert_eq. split; [done|apply NoDup_singleton].
    + rewrite lookup_insert_ne by done.
      apply lookup_insert_Some in Hk as [[_ ?]|[_ Hk]]; [done|].
      by apply Hwf in Hk.
Qed.

Lemma listeners_wf_subscribe taskId l now s :
  listeners_wf s → listeners_wf (subscribeToTask taskId l now s).2.
Proof.
  intros Hwf%(listeners_wf_registered taskId l).
  rewrite subscribeToTask_state.
  destruct (tasks s !! taskId); [|done].
  by apply (listeners_wf_same (registered taskId l s)).
Qed.

Lemma listeners_wf_unsubscribe u s :
  listeners_wf s → listeners_wf (unsubscribe u s).2.
Proof.
  intros Hwf. rewrite unsubscribe_eq. simpl.
  assert (listeners_wf
            (set_sets (alter (Js.set_delete (u_listener u)) (u_listeners u)) s))
    as Hwf1.
  { intros k r (ls & Hls & Hnd)%Hwf. simpl.
    destruct (decide (u_listeners u = r)) as [->|Hne].
    - exists (Js.set_delete (u_listener u) ls). rewrite lookup_alter_eq, Hls.
      split; [done|by apply NoDup_set_delete].
    - exists ls. by rewrite lookup_alter_ne. }
  destruct (alter _ _ _ !! _) as [[|]|]; try done.
  intros k r Hk. simpl in Hk. apply lookup_delete_Some in Hk as [_ Hk].
  by apply (Hwf1 k r).
Qed.

Lemma listeners_wf_step s op :
  tasks_wf s → listeners_wf s → listeners_wf (run_op op s).
Proof.
  intros Htwf Hwf. destruct op; unfold run_op.
  - by rewrite createTask_eq.
  - unfold getTask. by munfold.
  - destruct (tasks s !! taskId) as [t|] eqn:Ht.
    + rewrite (continueTask_eq _ _ _ _ _ _ _ Ht). simpl.
      by apply (listeners_wf_same s).
    + by rewrite (continueTask_missing _ _ _ _ _ _ Ht).
  - destruct (tasks s !! taskId) as [t|] eqn:Ht.
    + destruct (cancel_refused (state (status t))) eqn:Hr.
      * by rewrite (cancelTask_refused _ _ _ t Ht Hr).
      * rewrite (cancelTask_live _ _ _ t Ht Hr). simpl.
        by apply (listeners_wf_same s).
    + by rewrite (cancelTask_missing _ _ _ Ht).
  - by apply listeners_wf_subscribe.
  - by apply listeners_wf_unsubscribe.
  - destruct (pending s !! i) as [ex|] eqn:Hi.
    + destruct (wf_pending _ Htwf ex) as [t Ht].
      { by eapply list_elem_of_lookup_2. }
      destruct (executeSkill (config s) h
                  (parseSkillInvocation (ex_request ex)) (ex_principal ex))
        as [result|e] eqn:He.
      * rewrite (exec_done_return _ _ _ _ _ _ _ Hi Ht He). simpl.
        apply (listeners_wf_same s); [done|..];
          unfold succeeded_server, with_webhook; by destruct (ex_webhook ex).
      * rewrite (exec_done_throw _ _ _ _ _ _ _ Hi Ht He). simpl.
        apply (listeners_wf_same s); [done|..];
          unfold failed_server, with_webhook; by destruct (ex_webhook ex).
    + unfold exec_done. by rewrite Hi.
Qed.

Lemma reachable_listeners_wf cfg s : reachable cfg s → listeners_wf s.
Proof.
  induction 1 as [|s op Hs IH Hop]; [apply listeners_wf_init|].
  apply listeners_wf_step; [by eapply reachable_tasks_wf|done].
Qed.

Lemma reachable_run cfg s ops :
  reachable cfg s →
  (∀ n op, ops !! n = Some op → op_allowed (run (take n ops) s) op) →
  reachable cfg (run ops s).
Proof.
  intros Hs. induction ops as [|op ops IH] using rev_ind; intros Hall; [done|].
  unfold run. rewrite foldl_snoc. apply reachable_step.
  - apply IH. intros n op' Hn.
    specialize (Hall n op' (lookup_app_l_Some _ _ _ _ Hn)).
    rewrite take_app_le in Hall; [done|].
    apply lookup_lt_Some in Hn. lia.
  - specialize (Hall (length ops) op).
    rewrite take_app_length in Hall. apply Hall.
    by rewrite list_lookup_middle.
Qed.

(* ===================================================================== *)
(** ** Webhooks *)
(* ===================================================================== *)

(** Only the end of an execution calls [sendWebhook]. *)
Lemma webhooks_only_from_exec_done op s :
  is_exec_done op = false → webhooks (run_op op s) = webhooks s.
Proof.
  intros Hop. destruct op; try done; unfold run_op.
  - destruct (tasks s !! taskId) as [t|] eqn:Ht.
    + by rewrite (continueTask_eq _ _ _ _ _ _ _ Ht).
    + by rewrite (continueTask_missing _ _ _ _ _ _ Ht).
  - destruct (tasks s !! taskId) as [t|] eqn:Ht.
    + destruct (cancel_refused (state (status t))) eqn:Hr.
      * by rewrite (cancelTask_refused _ _ _ t Ht Hr).
      * by rewrite (cancelTask_live _ _ _ t Ht Hr).
    + by rewrite (cancelTask_missing _ _ _ Ht).
  - rewrite subscribeToTask_state. unfold registered.
    by destruct (tasks s !! taskId), (taskListeners s !! taskId).
  - rewrite unsubscribe_eq. simpl. by destruct (alter _ _ _ !! _) as [[|]|].
Qed.

(** The webhook call of a resumed execution. *)
Lemma exec_done_webhooks i h z s ex t :
  pending s !! i = Some ex →
  tasks s !! ex_task ex = Some t →
  ∃ t' p,
    tasks (exec_done i h z s).2 !! ex_task ex = Some t'
    ∧ wp_task_id p = id t
    ∧ wp_status p = status t'
    ∧ wp_event p
      = outcome_event (executeSkill (config s) h
                         (parseSkillInvocation (ex_request ex))
                         (ex_principal ex))
    ∧ webhooks (exec_done i h z s).2
      = webhooks s ++ match ex_webhook ex with
                      | Some c => [(c, p)]
                      | None => []
                      end.
Proof.
  intros Hi Ht.
  destruct (executeSkill (config s) h (parseSkillInvocation (ex_request ex))
              (ex_principal ex)) as [result|e] eqn:He.
  - rewrite (exec_done_return _ _ _ _ _ _ _ Hi Ht He). simpl.
    exists (finished_task result z t), (success_payload result z t).
    unfold succeeded_server, with_webhook.
    destruct (ex_webhook ex); simpl; rewrite lookup_insert_eq, ?app_nil_r;
      by split_and!.
  - rewrite (exec_done_throw _ _ _ _ _ _ _ Hi Ht He). simpl.
    exists (failed_task (error_message e) (fail_now z) t),
           (failure_payload e z t).
    unfold failed_server, with_webhook.
    destruct (ex_webhook ex); simpl; rewrite lookup_insert_eq, ?app_nil_r;
      by split_and!.
Qed.

(** C6, as the code has it.  In every reachable state at most one webhook
    call has been made for each task.  While the execution of a task
    created with a webhook configuration is suspended (the task is in
    [working]) no call has been made for it; when the execution resumes,
    exactly one call is made, carrying the task's status at that moment:
    with the event [failed] when the execution threw, and with the event
    [completed] when the handler returned, whatever status it declared.
    No other operation (Create, Get, Continue, Cancel, Subscribe,
    unsubscribe) makes a webhook call. *)
Theorem webhook_dispatch_spec (cfg : A2aServerConfig) (s : Server) (i : nat)
    (ex : Execution) (c : A2aWebhookConfig) (h : Handlers) (z : Stamps) :
  reachable cfg s →
  pending s !! i = Some ex →
  ex_webhook ex = Some c →
  let s' := run_op (OpExecDone i h z) s in
  (∀ k, (length (webhooks_of k s) ≤ 1)%nat)
  ∧ (∀ k, (length (webhooks_of k s') ≤ 1)%nat)
  ∧ webhooks_of (ex_task ex) s = []
  ∧ (∃ t' p,
       tasks s' !! ex_task ex = Some t'
       ∧ webhooks s' = webhooks s ++ [(c, p)]
       ∧ webhooks_of (ex_task ex) s' = [p]
       ∧ wp_status p = status t'
       ∧ wp_event p
         = outcome_event (executeSkill (config s) h
                            (parseSkillInvocation (ex_request ex))
                            (ex_principal ex)))
  ∧ (∀ op s0, is_exec_done op = false →
              webhooks (run_op op s0) = webhooks s0).
Proof.
  intros Hreach Hi Hc s'.
  pose proof (reachable_tasks_wf _ _ Hreach) as Hwf.
  assert (reachable cfg s') as Hreach' by by apply reachable_step.
  pose proof (reachable_tasks_wf _ _ Hreach') as Hwf'.
  assert (ex ∈ pending s) as Hex by by eapply list_elem_of_lookup_2.
  destruct (wf_pending _ Hwf ex Hex) as [t Ht].
  assert (webhooks_of (ex_task ex) s = []) as Hnone.
  { pose proof (wf_once _ Hwf (ex_task ex)) as Honce.
    assert (ex ∈ pending_of (ex_task ex) s) as Hin
      by by apply list_elem_of_filter.
    destruct (pending_of (ex_task ex) s); [by apply elem_of_nil in Hin|].
    destruct (webhooks_of (ex_task ex) s); [done|]. simpl in Honce. lia. }
  split_and!.
  - intros k. pose proof (wf_once _ Hwf k). lia.
  - intros k. pose proof (wf_once _ Hwf' k). lia.
  - done.
  - destruct (exec_done_webhooks i h z s ex t Hi Ht)
      as (t' & p & Ht' & Hid & Hst & Hev & Hw).
    rewrite Hc in Hw. exists t', p. split_and!; try done.
    unfold webhooks_of in *. subst s'. simpl. rewrite Hw.
    rewrite fmap_app, filter_app, Hnone. simpl.
    rewrite filter_cons_True; [done|].
    rewrite Hid. by apply (wf_ids _ Hwf).
  - intros op s0. apply webhooks_only_from_exec_done.
Qed.

Lemma hooked_server_reachable : reachable all_handlers hooked_server.
Proof.
  unfold hooked_server, run. cbn [foldl].
  repeat apply reachable_step; try exact I.
  - apply reachable_init.
  - vm_compute. reflexivity.
Qed.

Lemma webhook_dispatch_witness :
  reachable all_handlers hooked_server
  ∧ pending hooked_server !! 0 = Some hooked_execution
  ∧ ex_webhook hooked_execution = Some hook
  ∧ let s' := run_op (OpExecDone 0 (rejects budget_error) stamps0)
                hooked_server in
    webhooks_of "task-1" hooked_server = []
    ∧ ∃ t' p,
        tasks s' !! "task-1" = Some t'
        ∧ webhooks s' = webhooks hooked_server ++ [(hook, p)]
        ∧ webhooks_of "task-1" s' = [p]
        ∧ wp_status p = status t'
        ∧ wp_event p = ev_failed.
Proof.
  split; [apply hooked_server_reachable|].
  split; [reflexivity|]. split; [reflexivity|].
  destruct (webhook_dispatch_spec all_handlers hooked_server 0
              hooked_execution hook (rejects budget_error) stamps0
              hooked_server_reachable eq_refl eq_refl)
    as (_ & _ & H3 & H4 & _).
  split; [exact H3|exact H4].
Defined.

(** C6 as stated fails: when the handler declares the status [submitted],
    which is not terminal, a webhook call is made all the same, with the
    event [completed]. *)
Lemma webhook_sent_for_submitted :
  let s' := run_op (OpExecDone 0 (answers (Some submitted)) stamps0)
              hooked_server in
  webhooks_of "task-1" hooked_server = []
  ∧ task_state "task-1" s' = Some submitted
  ∧ is_terminal submitted = false
  ∧ length (webhooks_of "task-1" s') = 1
  ∧ (wp_event <$> webhooks_of "task-1" s') = [ev_completed]
  ∧ (state ∘ wp_status <$> webhooks_of "task-1" s') = [submitted].
Proof. split_and!; vm_compute; reflexivity. Qed.

(* ===================================================================== *)
(** ** Create *)
(* ===================================================================== *)

Lemma executeSkill_unresolved cfg h request principal :
  route (request_skill request) = None →
  truthy_context (last (text_parts (req_parts request))) = None →
  executeSkill cfg h (parseSkillInvocation request) principal
  = Throw (AdcpError "NOT_IMPLEMENTED"
             ("Unknown skill: " +:+ request_skill request)).
Proof.
  intros Hr Hc. unfold executeSkill, parseSkillInvocation. simpl.
  by rewrite Hr, parse_context, Hc.
Qed.

(** C4, as the code has it.  Create Task validates nothing and never
    raises: for every request (one with no Parts, one that names an
    unknown skill, any other) it stores the task record in the state
    [working], starts its execution, calls no listener, and returns the
    task id with the status [working].  For a request whose skill is not
    one of the routed skill names and which has no non-empty text Part,
    the failure comes when the execution resumes: [executeSkill] throws
    NOT_IMPLEMENTED, the stored task goes to [failed] and its listeners
    get the error event (created, then failed). *)
Theorem createTask_then_not_implemented (request : A2aTaskRequest)
    (principal : option Principal) (task_uuid now msg_id : string)
    (s : Server) (h : Handlers) (z : Stamps) :
  let taskId := "task-" +:+ task_uuid in
  let message := "Unknown skill: " +:+ request_skill request in
  ∃ s1,
    createTask request principal task_uuid now msg_id s
    = (Ok {| task_id := taskId;
             resp_status := {| state := working;
                               st_message := Some "Processing request";
                               st_timestamp := now |};
             resp_messages := None; resp_artifacts := None |}, s1)
    ∧ tasks s1
      = <[taskId := new_task request principal task_uuid now msg_id]> (tasks s)
    ∧ tasks s1 !! taskId
      = Some (new_task request principal task_uuid now msg_id)
    ∧ task_state taskId s1 = Some working
    ∧ pending s1 = pending s ++ [new_execution request principal task_uuid]
    ∧ delivered s1 = delivered s
    ∧ webhooks s1 = webhooks s
    ∧ (route (request_skill request) = None →
       truthy_context (last (text_parts (req_parts request))) = None →
       let s2 := run_op (OpExecDone (length (pending s)) h z) s1 in
       task_state taskId s2 = Some failed
       ∧ (st_message ∘ status <$> tasks s2 !! taskId) = Some (Some message)
       ∧ delivered s2
         = delivered s
           ++ ((λ l, (l, error_event "NOT_IMPLEMENTED" message (fail_now z)))
                 <$> listeners_of taskId s)).
Proof.
  intros taskId message. eexists. split; [apply createTask_eq|].
  split_and!; simpl; try done.
  - by rewrite lookup_insert_eq.
  - unfold task_state. simpl. by rewrite lookup_insert_eq.
  - intros Hr Hc.
    erewrite exec_done_throw;
      [| simpl; by apply list_lookup_middle
       | simpl; by rewrite lookup_insert_eq
       | by apply executeSkill_unresolved].
    unfold task_state, failed_server, with_webhook; simpl.
    destruct (req_webhook request); simpl;
      rewrite lookup_insert_eq; by split_and!.
Qed.

Lemma createTask_then_not_implemented_witness :
  (∃ s1,
      createTask empty_request None "1" t0 "m0" (init all_handlers)
      = (Ok {| task_id := "task-1";
               resp_status := {| state := working;
                                 st_message := Some "Processing request";
                                 st_timestamp := t0 |};
               resp_messages := None; resp_artifacts := None |}, s1)
      ∧ tasks s1 !! "task-1" = Some (new_task empty_request None "1" t0 "m0")
      ∧ task_state "task-1" s1 = Some working
      ∧ route (request_skill empty_request) = None
      ∧ truthy_context (last (text_parts (req_parts empty_request))) = None
      ∧ task_state "task-1"
          (run_op (OpExecDone 0 (answers None) stamps0) s1) = Some failed)
  ∧ (∃ s1,
      createTask bare_signals_request None "2" t0 "m0" (init all_handlers)
      = (Ok {| task_id := "task-2";
               resp_status := {| state := working;
                                 st_message := Some "Processing request";
                                 st_timestamp := t0 |};
               resp_messages := None; resp_artifacts := None |}, s1)
      ∧ req_parts bare_signals_request = []
      ∧ task_state "task-2" s1 = Some working).
Proof.
  split.
  - destruct (createTask_then_not_implemented empty_request None "1" t0 "m0"
                (init all_handlers) (answers None) stamps0)
      as (s1 & H1 & _ & H2 & H3 & _ & _ & _ & H7).
    destruct (H7 eq_refl eq_refl) as (H8 & _).
    exists s1. split_and!; done.
  - destruct (createTask_then_not_implemented bare_signals_request None "2"
                t0 "m0" (init all_handlers) (answers None) stamps0)
      as (s1 & H1 & _ & _ & H3 & _).
    exists s1. split_and!; done.
Defined.

(** C4 as stated fails: a request with no Parts, and a request that names
    an unknown skill and has no text Part, are both accepted by Create
    Task, which returns normally and stores a task record. *)
Lemma createTask_accepts_invalid_requests :
  req_parts empty_request = []
  ∧ (∃ r, (createTask empty_request None "1" t0 "m0" (init all_handlers)).1
          = Ok r)
  ∧ task_state "task-1"
      (createTask empty_request None "1" t0 "m0" (init all_handlers)).2
    = Some working
  ∧ route (request_skill unknown_skill_request) = None
  ∧ text_parts (req_parts unknown_skill_request) = []
  ∧ (∃ r, (createTask unknown_skill_request None "2" t0 "m0"
             (init all_handlers)).1 = Ok r)
  ∧ task_state "task-2"
      (createTask unknown_skill_request None "2" t0 "m0"
         (init all_handlers)).2
    = Some working.
Proof.
  split_and!; try reflexivity; eexists; reflexivity.
Qed.

(* ===================================================================== *)
(** ** What a subscriber receives *)
(* ===================================================================== *)

Lemma received_add_deliveries l ds s :
  received l (add_deliveries ds s)
  = received l s ++ (snd <$> filter (λ d, d.1 = l) ds).
Proof. unfold received. simpl. by rewrite filter_app, fmap_app. Qed.

(** One event sent to a set that holds the listener: one call. *)
Lemma received_of_broadcast (l : SseListener) (ls : list SseListener)
    (ev : SseEvent) :
  NoDup ls → l ∈ ls →
  snd <$> filter (λ d, d.1 = l) ((λ l', (l', ev)) <$> ls) = [ev].
Proof.
  induction 1 as [|l' ls Hl' Hnd IH]; intros Hin; [by apply elem_of_nil in Hin|].
  simpl. rewrite filter_cons. simpl.
  apply elem_of_cons in Hin as [->|Hin].
  - rewrite decide_True by done. simpl. f_equal.
    rewrite filter_none; [done|].
    intros [l0 ev0] (l1 & [= -> ->] & Hl1)%list_elem_of_fmap. simpl.
    by intros ->.
  - rewrite decide_False by (by intros ->). by apply IH.
Qed.

Lemma received_of_broadcasts (l : SseListener) (ls : list SseListener)
    (evs : list SseEvent) :
  NoDup ls → l ∈ ls →
  snd <$> filter (λ d, d.1 = l) (broadcasts ls evs) = evs.
Proof.
  intros Hnd Hin. unfold broadcasts.
  induction evs as [|ev evs IH]; [done|].
  rewrite bind_cons, filter_app, fmap_app, IH.
  by rewrite received_of_broadcast.
Qed.

Lemma publish_all_eq taskId evs s :
  publish_all taskId evs s
  = (Ok (), add_deliveries (broadcasts (listeners_of taskId s) evs) s).
Proof.
  unfold publish_all. revert s.
  induction evs as [|ev evs IH]; intros s; simpl.
  - by rewrite add_deliveries_nil.
  - unfold mbind at 1, M_bind at 1. rewrite emitEvent_eq, IH.
    by rewrite add_deliveries_app.
Qed.

(** Every subscriber of a task is called with the events published for
    the task one by one, in the order of publication. *)
Lemma publish_all_received taskId evs l s :
  listeners_wf s → l ∈ listeners_of taskId s →
  received l (publish_all taskId evs s).2 = received l s ++ evs.
Proof.
  intros Hwf Hin. rewrite publish_all_eq. simpl.
  rewrite received_add_deliveries. f_equal.
  apply received_of_broadcasts; [|done].
  unfold listeners_of in *.
  destruct (taskListeners s !! taskId) as [r|] eqn:Hr;
    [|by apply elem_of_nil in Hin].
  destruct (Hwf _ _ Hr) as (ls & -> & Hnd). done.
Qed.

Lemma listeners_of_registered taskId l s :
  listeners_wf s →
  l ∈ listeners_of taskId (registered taskId l s)
  ∧ NoDup (listeners_of taskId (registered taskId l s)).
Proof.
  intros Hwf. unfold listeners_of, registered.
  destruct (taskListeners s !! taskId) as [r|] eqn:Hr; simpl.
  - rewrite Hr, lookup_alter_eq.
    destruct (Hwf _ _ Hr) as (ls & -> & Hnd). simpl.
    split; [apply elem_of_set_add|by apply NoDup_set_add].
  - rewrite !lookup_insert_eq. simpl.
    split; [by apply list_elem_of_singleton|apply NoDup_singleton].
Qed.

Lemma success_broadcasts taskId result z t s :
  id t = taskId →
  (artifact_events result z ≫= λ ev, broadcast taskId ev s)
  ++ broadcast (id t)
       (message_event (response_message result z) (complete_now z)) s
  ++ broadcast (id t)
       (complete_event (finished_task result z t) (complete_now z)) s
  = broadcasts (listeners_of taskId s) (success_events result z t).
Proof.
  intros ->. unfold broadcasts, success_events, broadcast.
  rewrite bind_app. simpl. by rewrite app_nil_r.
Qed.

Lemma registered_frame taskId l s :
  tasks (registered taskId l s) = tasks s
  ∧ pending (registered taskId l s) = pending s
  ∧ config (registered taskId l s) = config s
  ∧ delivered (registered taskId l s) = delivered s.
Proof. unfold registered. by destruct (taskListeners s !! taskId). Qed.






(* ===================================================================== *)
(** ** Subscribe and unsubscribe *)
(* ===================================================================== *)

Lemma subscribeToTask_unknown taskId l now s :
  tasks s !! taskId = None →
  subscribeToTask taskId l now s
  = (Ok {| u_listeners := captured_set taskId s; u_listener := l;
           u_taskId := taskId |},
     registered taskId l s).
Proof.
  intros Ht. unfold subscribeToTask, registered, captured_set.
  unfold mbind at 1, M_bind at 1, gets at 1.
  destruct (taskListeners s !! taskId) as [r|] eqn:Hr.
  - munfold. simpl. by rewrite Ht.
  - munfold. simpl. rewrite Ht. simpl. do 2 f_equal.
    unfold set_sets, set_taskListeners, set_next_ref; simpl.
    by rewrite alter_insert_eq.
Qed.

(** Calling the closure a second time right after the first changes
    nothing. *)
Lemma unsubscribe_again u s :
  unsubscribe u (unsubscribe u s).2 = (Ok (), (unsubscribe u s).2).
Proof.
  rewrite !unsubscribe_eq. cbn [snd]. f_equal.
  set (f := Js.set_delete (u_listener u)).
  assert (∀ ls, f (f ls) = f ls) as Hff.
  { intros ls. unfold f, Js.set_delete. rewrite list_filter_filter.
    apply list_filter_iff. intros x. split; [by intros [??]|by intros ?]. }
  assert (∀ m : gmap nat (list SseListener),
            alter f (u_listeners u) (alter f (u_listeners u) m)
            = alter f (u_listeners u) m) as Haa.
  { intros m. apply map_eq. intros r.
    destruct (decide (u_listeners u = r)) as [<-|Hne].
    - rewrite !lookup_alter_eq. destruct (m !! u_listeners u); simpl; [|done].
      by rewrite Hff.
    - by rewrite !lookup_alter_ne. }
  destruct s as [cfg ts tl ss nr dl wh pd]. simpl.
  destruct (alter f (u_listeners u) ss !! u_listeners u) as [[|l0 ls0]|] eqn:Hl;
    unfold set_sets, set_taskListeners; simpl; rewrite Haa, Hl; try done.
  f_equal. apply map_eq. intros k.
  destruct (decide (u_taskId u = k)) as [<-|Hne].
  - by rewrite !lookup_delete_eq.
  - by rewrite !lookup_delete_ne.
Qed.

(** C10, at the failing input.  [watcher] subscribes to an unknown task id
    and gets its closure; it calls the closure; [watcher2] subscribes to
    the same id and receives what is published.  When the first closure
    is called once more, it finds its own (empty) [Set] and deletes the
    entry of the task id, which now holds the [Set] of [watcher2]:
    [watcher2] receives nothing any more. *)
Theorem stale_unsubscribe_drops_other_listener :
  tasks (init all_handlers) !! "task-9" = None
  ∧ (subscribeToTask "task-9" watcher t0 (init all_handlers)).1
    = Ok first_closure
  ∧ delivered resubscribed_server = []
  ∧ listeners_of "task-9" resubscribed_server = [watcher2]
  ∧ received watcher2 (emitEvent "task-9" ping resubscribed_server).2 = [ping]
  ∧ listeners_of "task-9" (unsubscribe first_closure resubscribed_server).2
    = []
  ∧ received watcher2
      (emitEvent "task-9" ping
         (unsubscribe first_closure resubscribed_server).2).2 = []
  ∧ (unsubscribe first_closure resubscribed_server).2 ≠ resubscribed_server.
Proof.
  split_and!; try (vm_compute; reflexivity).
  intros H. apply (f_equal (listeners_of "task-9")) in H.
  vm_compute in H. discriminate.
Qed.

(* ===================================================================== *)
(** ** What is left of the terminal-state invariant *)
(* ===================================================================== *)









(** The same happens to a cancelled task whose handler resolves later: the
    result is appended and the state becomes [completed]. *)
Lemma late_completion_overwrites_cancel :
  let s1 := run [OpCancel "task-1" t9] working_server in
  let s2 := run [OpExecDone 0 (answers None) stamps0] s1 in
  task_state "task-1" s1 = Some failed
  ∧ task_state "task-1" s2 = Some completed
  ∧ (length ∘ messages <$> tasks s1 !! "task-1") = Some 1
  ∧ (length ∘ messages <$> tasks s2 !! "task-1") = Some 2.
Proof. split_and!; vm_compute; reflexivity. Qed.

(* ===================================================================== *)
(** ** More on the engine: fan-out, Get, histories *)
(* ===================================================================== *)

(** [emitEvent] returns normally from every state; it calls each listener
    registered for the task id once, in registration order, whether or not
    some of them throw, and changes nothing else.  With no entry for the
    task id it does nothing at all. *)
Theorem emitEvent_isolates_listener_failures (taskId : string)
    (ev : SseEvent) (s : Server) :
  ∃ s',
    emitEvent taskId ev s = (Ok (), s')
    ∧ delivered s' = delivered s ++ ((λ l, (l, ev)) <$> listeners_of taskId s)
    ∧ tasks s' = tasks s
    ∧ taskListeners s' = taskListeners s
    ∧ sets s' = sets s
    ∧ webhooks s' = webhooks s
    ∧ pending s' = pending s
    ∧ (taskListeners s !! taskId = None → s' = s).
Proof.
  eexists. split; [apply emitEvent_eq|]. split_and!; try done.
  intros Hnone. unfold broadcast, listeners_of. rewrite Hnone. simpl.
  apply add_deliveries_nil.
Qed.

Lemma getTask_eq taskId s :
  getTask taskId s = (Ok (response_of <$> tasks s !! taskId), s).
Proof. reflexivity. Qed.

Lemma extends_refl t : extends t t.
Proof. by split_and!. Qed.

Lemma extends_trans t1 t2 t3 : extends t1 t2 → extends t2 t3 → extends t1 t3.
Proof.
  intros (? & ? & ? & ? & ?) (? & ? & ? & ? & ?).
  split_and!; try congruence; by etrans.
Qed.

Lemma extends_finished result z t : extends t (finished_task result z t).
Proof.
  unfold finished_task, with_artifact, extends.
  destruct (sr_artifact result) as [[name data]|]; simpl;
    split_and!; try done; by apply prefix_app_r.
Qed.

Lemma extends_continued parts now msg_id now' t :
  extends t (continued_task parts now msg_id now' t).
Proof.
  unfold extends. simpl. split_and!; try done.
  rewrite <- app_assoc. by apply prefix_app_r.
Qed.

(** One allowed operation on a reachable server keeps every stored task
    and only extends it. *)
Lemma step_extends cfg s op k t :
  reachable cfg s → op_allowed s op →
  tasks s !! k = Some t →
  ∃ t', tasks (run_op op s) !! k = Some t' ∧ extends t t'.
Proof.
  intros Hreach Hop Ht. pose proof (reachable_tasks_wf _ _ Hreach) as Hwf.
  destruct op; unfold run_op.
  - rewrite createTask_eq. cbn [snd tasks set_pending set_tasks].
    simpl in Hop. exists t. split; [|apply extends_refl].
    rewrite lookup_insert_ne; [done|]. intros <-. congruence.
  - rewrite getTask_eq. exists t. split; [done|apply extends_refl].
  - destruct (tasks s !! taskId) as [t0|] eqn:Ht0.
    + rewrite (continueTask_eq _ _ _ _ _ _ _ Ht0). cbn [snd].
      cbn [tasks add_deliveries set_tasks].
      destruct (decide (taskId = k)) as [->|Hne].
      * rewrite lookup_insert_eq. eexists. split; [done|].
        assert (t0 = t) as -> by congruence. apply extends_continued.
      * rewrite lookup_insert_ne by done. exists t.
        split; [done|apply extends_refl].
    + rewrite (continueTask_missing _ _ _ _ _ _ Ht0).
      exists t. split; [done|apply extends_refl].
  - destruct (tasks s !! taskId) as [t0|] eqn:Ht0.
    + destruct (cancel_refused (state (status t0))) eqn:Hr.
      * rewrite (cancelTask_refused _ _ _ t0 Ht0 Hr).
        exists t. split; [done|apply extends_refl].
      * rewrite (cancelTask_live _ _ _ t0 Ht0 Hr). cbn [snd].
        cbn [tasks add_deliveries set_tasks].
        destruct (decide (taskId = k)) as [->|Hne].
        -- rewrite lookup_insert_eq. eexists. split; [done|].
           assert (t0 = t) as -> by congruence. by split_and!.
        -- rewrite lookup_insert_ne by done. exists t.
           split; [done|apply extends_refl].
    + rewrite (cancelTask_missing _ _ _ Ht0).
      exists t. split; [done|apply extends_refl].
  - rewrite subscribeToTask_state. exists t. split; [|apply extends_refl].
    destruct (registered_frame taskId listener s) as (Hrt & _).
    destruct (tasks s !! taskId); simpl; by rewrite Hrt.
  - rewrite unsubscribe_eq. exists t. split; [|apply extends_refl].
    simpl. by destruct (alter _ _ _ !! _) as [[|]|].
  - destruct (pending s !! i) as [ex|] eqn:Hi.
    + destruct (wf_pending _ Hwf ex) as [t0 Ht0].
      { by eapply list_elem_of_lookup_2. }
      destruct (executeSkill (config s) h
                  (parseSkillInvocation (ex_request ex)) (ex_principal ex))
        as [result|e] eqn:He.
      * rewrite (exec_done_return _ _ _ _ _ _ _ Hi Ht0 He). cbn [snd].
        assert (tasks (succeeded_server (ex_task ex) result z (ex_webhook ex)
                         t0 (set_pending (delete i) s))
                = <[ex_task ex := finished_task result z t0]> (tasks s)) as ->.
        { unfold succeeded_server, with_webhook. by destruct (ex_webhook ex). }
        destruct (decide (ex_task ex = k)) as [Hk|Hne].
        -- rewrite Hk, lookup_insert_eq. eexists. split; [done|].
           assert (t0 = t) as -> by congruence. apply extends_finished.
        -- rewrite lookup_insert_ne by done. exists t.
           split; [done|apply extends_refl].
      * rewrite (exec_done_throw _ _ _ _ _ _ _ Hi Ht0 He). cbn [snd].
        assert (tasks (failed_server (ex_task ex) e z (ex_webhook ex)
                         t0 (set_pending (delete i) s))
                = <[ex_task ex := failed_task (error_message e) (fail_now z) t0]>
                    (tasks s)) as ->.
        { unfold failed_server, with_webhook. by destruct (ex_webhook ex). }
        destruct (decide (ex_task ex = k)) as [Hk|Hne].
        -- rewrite Hk, lookup_insert_eq. eexists. split; [done|].
           assert (t0 = t) as -> by congruence. by split_and!.
        -- rewrite lookup_insert_ne by done. exists t.
           split; [done|apply extends_refl].
    + unfold exec_done. rewrite Hi. exists t. split; [done|apply extends_refl].
Qed.

Lemma evolves_reachable cfg s s' :
  reachable cfg s → evolves s s' → reachable cfg s'.
Proof. intros Hs. induction 1; [done|]. apply reachable_step; auto. Qed.

(** The history of a task is append-only.  From a reachable server, over
    any sequence of operations (with task uuids that do not repeat), a
    stored task stays stored under its id; its id, creation time and
    metadata never change; and its messages and artifacts are only ever
    extended at the end, never reordered, rewritten or truncated. *)
Theorem history_is_append_only (cfg : A2aServerConfig) (s s' : Server)
    (k : string) (t : A2aTask) :
  reachable cfg s → evolves s s' →
  tasks s !! k = Some t →
  ∃ t', tasks s' !! k = Some t'
        ∧ id t' = id t ∧ created_at t' = created_at t
        ∧ metadata t' = metadata t
        ∧ messages t `prefix_of` messages t'
        ∧ artifacts t `prefix_of` artifacts t'.
Proof.
  intros Hreach Hev Ht.
  enough (∃ t', tasks s' !! k = Some t' ∧ extends t t') as (t' & ? & ?)
    by by exists t'.
  induction Hev as [|s s' op Hev IH Hop].
  - exists t. split; [done|apply extends_refl].
  - destruct (IH Hreach Ht) as (t1 & Ht1 & Hext1).
    destruct (step_extends cfg s' op k t1) as (t2 & Ht2 & Hext2);
      [by eapply evolves_reachable|done|done|].
    exists t2. split; [done|by eapply extends_trans].
Qed.

Lemma working_server_reachable : reachable all_handlers working_server.
Proof.
  unfold working_server, run. cbn [foldl].
  repeat apply reachable_step; try exact I.
  - apply reachable_init.
  - vm_compute. reflexivity.
Qed.

Lemma history_is_append_only_witness :
  let s' := run_op (OpExecDone 0 (answers None) stamps0)
              (run_op (OpContinue "task-1" more_input t9 "m9" t9)
                 working_server) in
  reachable all_handlers working_server
  ∧ evolves working_server s'
  ∧ tasks working_server !! "task-1" = Some working_task
  ∧ ∃ t', tasks s' !! "task-1" = Some t'
          ∧ id t' = id working_task
          ∧ created_at t' = created_at working_task
          ∧ metadata t' = metadata working_task
          ∧ messages working_task `prefix_of` messages t'
          ∧ artifacts working_task `prefix_of` artifacts t'.
Proof.
  intros s'.
  assert (evolves working_server s') as Hev
    by (subst s'; apply evolves_step;
        [apply evolves_step; [apply evolves_refl|exact I]|exact I]).
  split; [apply working_server_reachable|]. split; [exact Hev|].
  split; [reflexivity|].
  exact (history_is_append_only all_handlers working_server s' "task-1"
           working_task working_server_reachable Hev eq_refl).
Defined.

Lemma evolves_extends cfg s s' k t :
  reachable cfg s → evolves s s' → tasks s !! k = Some t →
  ∃ t', tasks s' !! k = Some t' ∧ extends t t'.
Proof.
  intros Hreach Hev Ht. induction Hev as [|s s' op Hev IH Hop].
  - exists t. split; [done|apply extends_refl].
  - destruct (IH Hreach Ht) as (t1 & Ht1 & Hext1).
    destruct (step_extends cfg s' op k t1) as (t2 & Ht2 & Hext2);
      [by eapply evolves_reachable|done|done|].
    exists t2. split; [done|by eapply extends_trans].
Qed.

(** What the caller of Create Task and then Get Task holds.  Whatever the
    engine did between the two calls, and whatever it does between the
    return of Get Task and the moment the caller reads the response
    (executions that resume, Continue, Cancel, other tasks), Get Task on
    the returned id does not answer null: its response carries that id;
    the first message is the requester's, with the Parts of the request;
    the status read from the response is the one the task had when Get
    Task returned, while the messages and artifacts read from it are the
    task's at the time of reading, which extend those of the time of the
    call (the response shares the task's arrays).  So the caller may read
    the status [working] next to the agent's final message. *)
Theorem create_then_get (cfg : A2aServerConfig) (s s2 s3 : Server)
    (request : A2aTaskRequest) (principal : option Principal)
    (task_uuid now msg_id : string) :
  reachable cfg s →
  tasks s !! ("task-" +:+ task_uuid) = None →
  let taskId := "task-" +:+ task_uuid in
  let s1 := (createTask request principal task_uuid now msg_id s).2 in
  evolves s1 s2 →
  evolves s2 s3 →
  ∃ r t2 t3,
    getTask taskId s2 = (Ok (Some r), s2)
    ∧ tasks s2 !! taskId = Some t2
    ∧ tasks s3 !! taskId = Some t3
    ∧ task_id r = taskId
    ∧ resp_status r = status t2
    ∧ resp_messages r = Some (messages t2)
    ∧ resp_artifacts r = Some (artifacts t2)
    ∧ read_response r s3
      = {| task_id := taskId; resp_status := status t2;
           resp_messages := Some (messages t3);
           resp_artifacts := Some (artifacts t3) |}
    ∧ (∃ m, head (messages t2) = Some m
            ∧ role m = user ∧ parts m = req_parts request)
    ∧ messages t2 `prefix_of` messages t3
    ∧ artifacts t2 `prefix_of` artifacts t3.
Proof.
  intros Hreach Hfresh taskId s1 Hev2 Hev3.
  assert (reachable cfg s1) as Hreach1.
  { apply (reachable_step cfg s
             (OpCreate request principal task_uuid now msg_id)); done. }
  assert (tasks s1 !! taskId
          = Some (new_task request principal task_uuid now msg_id)) as Ht1.
  { subst s1. rewrite createTask_eq. cbn [snd tasks set_pending set_tasks].
    by rewrite lookup_insert_eq. }
  destruct (evolves_extends cfg s1 s2 taskId _ Hreach1 Hev2 Ht1)
    as (t2 & Ht2 & Hid2 & _ & _ & Hm2 & _).
  destruct (evolves_extends cfg s2 s3 taskId t2
              (evolves_reachable _ _ _ Hreach1 Hev2) Hev3 Ht2)
    as (t3 & Ht3 & _ & _ & _ & Hm3 & Ha3).
  exists (response_of t2), t2, t3.
  rewrite getTask_eq, Ht2. split_and!; try done.
  - unfold read_response. simpl. rewrite Hid2. simpl.
    fold taskId. by rewrite Ht3.
  - destruct Hm2 as [ms Hms]. simpl in Hms. rewrite Hms. by eexists.
Qed.

Lemma create_then_get_witness :
  let s1 := (createTask (get_signals_request None) None "1" t0 "m0"
               (init all_handlers)).2 in
  let s3 := run_op (OpExecDone 0 (answers None) stamps0) s1 in
  reachable all_handlers (init all_handlers)
  ∧ tasks (init all_handlers) !! "task-1" = None
  ∧ evolves s1 s1
  ∧ evolves s1 s3
  ∧ ∃ r t2 t3,
      getTask "task-1" s1 = (Ok (Some r), s1)
      ∧ tasks s1 !! "task-1" = Some t2
      ∧ tasks s3 !! "task-1" = Some t3
      ∧ resp_messages r = Some (messages t2)
      ∧ read_response r s3
        = {| task_id := "task-1"; resp_status := status t2;
             resp_messages := Some (messages t3);
             resp_artifacts := Some (artifacts t3) |}
      ∧ state (status t2) = working
      ∧ length (messages t2) = 1%nat
      ∧ state (status t3) = completed
      ∧ length (messages t3) = 2%nat.
Proof.
  intros s1 s3.
  assert (evolves s1 s3) as Hev3
    by (subst s3; apply evolves_step; [apply evolves_refl|exact I]).
  split; [apply reachable_init|]. split; [reflexivity|].
  split; [apply evolves_refl|]. split; [exact Hev3|].
  destruct (create_then_get all_handlers (init all_handlers) s1 s3
              (get_signals_request None) None "1" t0 "m0"
              (reachable_init all_handlers) eq_refl (evolves_refl s1) Hev3)
    as (r & t2 & t3 & H1 & H2 & H3 & _ & _ & H6 & _ & H8 & _).
  exists r, t2, t3.
  assert (t2 = working_task) as Ht2
    by (apply (inj Some); rewrite <- H2; reflexivity).
  assert (t3 = done_task) as Ht3
    by (apply (inj Some); rewrite <- H3; vm_compute; reflexivity).
  split_and!; try done.
  - by rewrite Ht2.
  - by rewrite Ht2.
  - by rewrite Ht3.
  - by rewrite Ht3.
Defined.

(* ===================================================================== *)
(** ** More on Subscribe *)
(* ===================================================================== *)

(** Subscribing to a stored task registers the listener and calls it, and
    only it, once, with a status event carrying the task's current status
    (so a late subscriber sees the terminal status and no replay).  The
    call is not guarded: when the listener throws on it, Subscribe throws
    what the listener threw and returns no unsubscribe closure, yet the
    listener stays registered. *)
Theorem subscribe_to_stored_task (taskId : string) (l : SseListener)
    (now : string) (s : Server) (t : A2aTask) :
  tasks s !! taskId = Some t →
  listeners_wf s →
  let r := subscribeToTask taskId l now s in
  delivered r.2 = delivered s ++ [(l, status_event (status t) now)]
  ∧ l ∈ listeners_of taskId r.2
  ∧ tasks r.2 = tasks s
  ∧ r.1 = match lthrows l with
          | Some e => Throw e
          | None => Ok (closure_of taskId l s)
          end.
Proof.
  intros Ht Hwf r. subst r.
  destruct (registered_frame taskId l s) as (Hrt & Hrp & Hrc & Hrd).
  destruct (listeners_of_registered taskId l s Hwf) as [Hin Hnd].
  rewrite subscribeToTask_state, Ht. split_and!.
  - simpl. by rewrite Hrd.
  - done.
  - simpl. by rewrite Hrt.
  - unfold subscribeToTask, closure_of, captured_set.
    unfold mbind at 1, M_bind at 1, gets at 1.
    destruct (taskListeners s !! taskId) as [r0|] eqn:Hr0;
      munfold; simpl; rewrite Ht; unfold call_listener;
      by destruct (lthrows l).
Qed.

Lemma subscribe_to_stored_task_witness :
  tasks completed_server !! "task-1" = Some done_task
  ∧ listeners_wf completed_server
  ∧ let r := subscribeToTask "task-1" faulty_watcher t9 completed_server in
    delivered r.2
    = delivered completed_server
      ++ [(faulty_watcher, status_event (status done_task) t9)]
    ∧ faulty_watcher ∈ listeners_of "task-1" r.2
    ∧ tasks r.2 = tasks completed_server
    ∧ r.1 = Throw (JsError "socket closed").
Proof.
  assert (listeners_wf completed_server) as Hwf.
  { apply (reachable_listeners_wf all_handlers).
    unfold completed_server, run. cbn [foldl].
    apply reachable_step; [apply working_server_reachable|exact I]. }
  split; [reflexivity|]. split; [exact Hwf|].
  exact (subscribe_to_stored_task "task-1" faulty_watcher t9 completed_server
           done_task eq_refl Hwf).
Defined.

Lemma set_add_elem `{EqDecision A} (x : A) (l : list A) :
  x ∈ l → Js.set_add x l = l.
Proof. intros Hx. unfold Js.set_add. by rewrite decide_True. Qed.

Lemma set_delete_add `{EqDecision A} (x : A) (l : list A) :
  x ∉ l → Js.set_delete x (Js.set_add x l) = l.
Proof.
  intros Hx. unfold Js.set_add, Js.set_delete. rewrite decide_False by done.
  rewrite filter_app, filter_cons_False, filter_nil, app_nil_r
    by (intros H; by apply H).
  induction l as [|y l IH]; [done|].
  apply not_elem_of_cons in Hx as [Hxy Hx].
  rewrite filter_cons_True by done. by rewrite IH.
Qed.

Lemma listeners_of_log_delivery k l ev s :
  listeners_of k (log_delivery l ev s) = listeners_of k s.
Proof. done. Qed.

Lemma listeners_of_subscribed taskId l now s :
  listeners_of taskId (subscribeToTask taskId l now s).2
  = listeners_of taskId (registered taskId l s).
Proof. rewrite subscribeToTask_state. by destruct (tasks s !! taskId). Qed.

(** A listener subscribed twice to the same task is registered once: the
    second Subscribe leaves the listener list of the task as it was, and
    an event published afterwards reaches the listener exactly once. *)
Theorem subscribe_twice_registers_once (taskId : string) (l : SseListener)
    (now now' : string) (ev : SseEvent) (s : Server) :
  listeners_wf s →
  let s1 := (subscribeToTask taskId l now s).2 in
  let s2 := (subscribeToTask taskId l now' s1).2 in
  listeners_of taskId s2 = listeners_of taskId s1
  ∧ received l (emitEvent taskId ev s2).2 = received l s2 ++ [ev].
Proof.
  intros Hwf s1 s2.
  assert (listeners_wf s1) as Hwf1 by by apply listeners_wf_subscribe.
  assert (listeners_wf s2) as Hwf2 by by apply listeners_wf_subscribe.
  assert (l ∈ listeners_of taskId s1) as Hin1.
  { subst s1. rewrite listeners_of_subscribed.
    by apply listeners_of_registered. }
  assert (listeners_of taskId s2 = listeners_of taskId s1) as Heq.
  { subst s2. rewrite listeners_of_subscribed.
    unfold listeners_of in *. unfold registered.
    destruct (taskListeners s1 !! taskId) as [r|] eqn:Hr;
      [|by apply elem_of_nil in Hin1].
    simpl. rewrite Hr, lookup_alter_eq.
    destruct (sets s1 !! r) as [ls|]; [|by apply elem_of_nil in Hin1].
    simpl in *. by rewrite set_add_elem. }
  split; [done|].
  rewrite <- (publish_all_received taskId [ev] l s2 Hwf2) by by rewrite Heq.
  unfold publish_all. simpl. unfold mbind, M_bind.
  by destruct (emitEvent taskId ev s2) as [[[]|e] s3].
Qed.

Lemma subscribe_twice_registers_once_witness :
  listeners_wf (init all_handlers)
  ∧ let s1 := (subscribeToTask "task-9" watcher t0 (init all_handlers)).2 in
    let s2 := (subscribeToTask "task-9" watcher t9 s1).2 in
    listeners_of "task-9" s2 = listeners_of "task-9" s1
    ∧ received watcher (emitEvent "task-9" ping s2).2
      = received watcher s2 ++ [ping].
Proof.
  split; [apply listeners_wf_init|].
  exact (subscribe_twice_registers_once "task-9" watcher t0 t9 ping
           (init all_handlers) (listeners_wf_init all_handlers)).
Defined.

(** Subscribe and then the returned closure: the listeners of the task id
    are back to what they were (for a listener that was not registered
    before), and so is what an event published for the task reaches. *)
Theorem subscribe_then_unsubscribe (taskId : string) (l : SseListener)
    (now : string) (s : Server) (u : Unsubscribe) :
  listeners_wf s →
  l ∉ listeners_of taskId s →
  (subscribeToTask taskId l now s).1 = Ok u →
  let s2 := (unsubscribe u (subscribeToTask taskId l now s).2).2 in
  u = closure_of taskId l s
  ∧ listeners_of taskId s2 = listeners_of taskId s
  ∧ (∀ ev, broadcast taskId ev s2 = broadcast taskId ev s).
Proof.
  intros Hwf Hnin Hu s2.
  assert (u = closure_of taskId l s) as ->.
  { revert Hu. unfold subscribeToTask, closure_of, captured_set.
    unfold mbind at 1, M_bind at 1, gets at 1.
    destruct (taskListeners s !! taskId) as [r0|] eqn:Hr0;
      munfold; simpl; destruct (tasks s !! taskId); unfold call_listener;
      destruct (lthrows l); simpl; congruence. }
  assert (listeners_of taskId s2 = listeners_of taskId s) as Heq.
  { subst s2. rewrite unsubscribe_eq. cbn [snd].
    rewrite subscribeToTask_state.
    assert (∀ s0 : Server,
      match tasks s !! taskId with
      | Some t => log_delivery l (status_event (status t) now) s0
      | None => s0
      end = add_deliveries
              match tasks s !! taskId with
              | Some t => [(l, status_event (status t) now)]
              | None => []
              end s0) as ->.
    { intros s0. destruct (tasks s !! taskId); [done|].
      by rewrite add_deliveries_nil. }
    unfold closure_of, captured_set, registered, listeners_of in *.
    cbn [u_listeners u_listener u_taskId].
    destruct (taskListeners s !! taskId) as [r|] eqn:Hr.
    - destruct (Hwf _ _ Hr) as (ls & Hls & Hnd). rewrite Hls in Hnin.
      simpl in Hnin. simpl. rewrite !lookup_alter_eq, Hls. simpl.
      rewrite set_delete_add by done.
      destruct ls as [|l0 ls]; simpl.
      + by rewrite lookup_delete_eq.
      + rewrite Hr. simpl. rewrite !lookup_alter_eq, Hls. simpl.
        by rewrite set_delete_add.
    - simpl. rewrite alter_insert_eq, lookup_insert_eq. simpl.
      rewrite (set_delete_add l []) by apply not_elem_of_nil. simpl.
      by rewrite lookup_delete_eq. }
  split_and!; try done.
  intros ev. unfold broadcast. by rewrite Heq.
Qed.

Lemma subscribe_then_unsubscribe_witness :
  listeners_wf working_server
  ∧ (watcher2 ∉ listeners_of "task-1" working_server)
  ∧ (subscribeToTask "task-1" watcher2 t9 working_server).1
    = Ok (closure_of "task-1" watcher2 working_server)
  ∧ listeners_of "task-1"
      (unsubscribe (closure_of "task-1" watcher2 working_server)
         (subscribeToTask "task-1" watcher2 t9 working_server).2).2
    = listeners_of "task-1" working_server.
Proof.
  assert (listeners_wf working_server) as Hwf
    by apply (reachable_listeners_wf all_handlers), working_server_reachable.
  assert (watcher2 ∉ listeners_of "task-1" working_server) as Hnin.
  { vm_compute. intros H. apply list_elem_of_singleton in H. discriminate. }
  split; [exact Hwf|]. split; [exact Hnin|]. split; [reflexivity|].
  destruct (subscribe_then_unsubscribe "task-1" watcher2 t9 working_server
              (closure_of "task-1" watcher2 working_server) Hwf Hnin eq_refl)
    as (_ & H & _).
  exact H.
Defined.

(** Subscribing to a task id that the store does not hold still registers
    the listener and returns the closure, without calling the listener;
    an event published later under that id reaches it once. *)
Theorem subscribe_to_unknown_task (taskId : string) (l : SseListener)
    (now : string) (ev : SseEvent) (s : Server) :
  tasks s !! taskId = None →
  listeners_wf s →
  let r := subscribeToTask taskId l now s in
  r.1 = Ok (closure_of taskId l s)
  ∧ delivered r.2 = delivered s
  ∧ l ∈ listeners_of taskId r.2
  ∧ received l (emitEvent taskId ev r.2).2 = received l s ++ [ev].
Proof.
  intros Ht Hwf r. subst r. rewrite (subscribeToTask_unknown _ _ _ _ Ht).
  cbn [fst snd].
  destruct (registered_frame taskId l s) as (_ & _ & _ & Hrd).
  destruct (listeners_of_registered taskId l s Hwf) as [Hin Hnd].
  split_and!; try done.
  rewrite emitEvent_eq. cbn [snd]. rewrite received_add_deliveries.
  unfold broadcast. rewrite received_of_broadcast by done.
  unfold received. by rewrite Hrd.
Qed.

Lemma subscribe_to_unknown_task_witness :
  tasks (init all_handlers) !! "task-9" = None
  ∧ listeners_wf (init all_handlers)
  ∧ let r := subscribeToTask "task-9" watcher t0 (init all_handlers) in
    r.1 = Ok first_closure
    ∧ delivered r.2 = []
    ∧ received watcher (emitEvent "task-9" ping r.2).2 = [ping].
Proof.
  split; [reflexivity|]. split; [apply listeners_wf_init|].
  destruct (subscribe_to_unknown_task "task-9" watcher t0 ping
              (init all_handlers) eq_refl (listeners_wf_init all_handlers))
    as (H1 & H2 & _ & H4).
  split; [exact H1|]. split; [exact H2|exact H4].
Defined.

(* ===================================================================== *)
(** ** More on [executeSkill] and the agent card *)
(* ===================================================================== *)

Lemma route_buildCreative (sk : string) :
  route sk = Some buildCreative
  ↔ sk = "build_creative" ∨ sk = "creative.build_creative".
Proof.
  split.
  - unfold route, skill_table. cbn [assoc]. intros H.
    repeat match type of H with
           | context [String.eqb sk ?k] =>
               destruct (String.eqb_spec sk k) as [Heq|Hne];
                 [first [discriminate | (subst; auto)]|clear Hne]
           end.
    discriminate.
  - by intros [-> | ->].
Qed.

Lemma nl_result cfg h c params principal result :
  handleNaturalLanguageRequest cfg h c params principal = Ok result →
  sr_status result = completed ∧ sr_artifact result = None.
Proof.
  unfold handleNaturalLanguageRequest. intros H.
  repeat match type of H with
         | context [if ?b then _ else _] => destruct b
         | context [match ?r with Ok _ => _ | Throw _ => _ end] => destruct r
         end; by simplify_eq.
Qed.

(** The outcome of the fallback, for use in several proofs. *)
Lemma fallback_always_completed_aux cfg h invocation principal result :
  route (skill invocation) = None →
  executeSkill cfg h invocation principal = Ok result →
  sr_status result = completed.
Proof.
  intros Hr. unfold executeSkill. rewrite Hr.
  destruct (truthy_context (context invocation)) as [c|]; [|done].
  by intros [? ?]%nl_result.
Qed.

Lemma executeSkill_errors_aux cfg h invocation principal e :
  executeSkill cfg h invocation principal = Throw e →
  (∃ m params, h m params principal = Throw e)
  ∨ ((∃ m, route (skill invocation) = Some m
           ∧ enabled cfg (protocol_of m) = false)
     ∨ (route (skill invocation) = None
        ∧ truthy_context (context invocation) = None)).
Proof.
  unfold executeSkill.
  destruct (route (skill invocation)) as [m|] eqn:Hr.
  - destruct (enabled cfg (protocol_of m)) eqn:Hen.
    + destruct (h m (parameters invocation) principal) as [r|e'] eqn:Hh;
        [done|]. intros [= <-]. left. eauto.
    + intros _. right. left. eauto.
  - destruct (truthy_context (context invocation)) as [c|] eqn:Hc.
    + unfold handleNaturalLanguageRequest. intros H. left.
      repeat match type of H with
             | context [if ?b then _ else _] => destruct b
             | context [match h ?m ?p ?pr with _ => _ end] =>
                 destruct (h m p pr) eqn:?
             end; simplify_eq; eauto.
    + intros _. right. right. done.
Qed.

(** An error thrown by [executeSkill] is either what a handler threw, or
    an [AdcpError] with the code NOT_IMPLEMENTED raised by [executeSkill]
    itself: for a routed skill whose protocol handler is not configured
    (the handlers are then not consulted), or for an unrouted skill with
    no non-empty context. *)
Theorem executeSkill_errors (cfg : A2aServerConfig) (h : Handlers)
    (invocation : A2aSkillInvocation) (principal : option Principal)
    (e : Thrown) :
  executeSkill cfg h invocation principal = Throw e →
  (∃ m params, h m params principal = Throw e)
  ∨ (error_code e = "NOT_IMPLEMENTED"
     ∧ (∀ h', executeSkill cfg h' invocation principal = Throw e)
     ∧ ((∃ m, route (skill invocation) = Some m
              ∧ enabled cfg (protocol_of m) = false)
        ∨ (route (skill invocation) = None
           ∧ truthy_context (context invocation) = None))).
Proof.
  unfold executeSkill.
  destruct (route (skill invocation)) as [m|] eqn:Hr.
  - destruct (enabled cfg (protocol_of m)) eqn:Hen.
    + destruct (h m (parameters invocation) principal) as [r|e'] eqn:Hh;
        [done|]. intros [= <-]. left. eauto.
    + intros [= <-]. right. split_and!.
      * by destruct (protocol_of m).
      * done.
      * left. eauto.
  - destruct (truthy_context (context invocation)) as [c|] eqn:Hc.
    + unfold handleNaturalLanguageRequest. intros H. left.
      repeat match type of H with
             | context [if ?b then _ else _] => destruct b
             | context [match h ?m ?p ?pr with _ => _ end] =>
                 destruct (h m p pr) eqn:?
             end; simplify_eq; eauto.
    + intros [= <-]. right. split_and!; try done. right. done.
Qed.

Lemma executeSkill_errors_witness :
  executeSkill no_handlers (answers None)
    (parseSkillInvocation (get_signals_request None)) None
  = Throw (AdcpError "NOT_IMPLEMENTED" "Signals protocol not enabled")
  ∧ ∀ h', executeSkill no_handlers h'
            (parseSkillInvocation (get_signals_request None)) None
          = Throw (AdcpError "NOT_IMPLEMENTED" "Signals protocol not enabled").
Proof.
  split; [reflexivity|].
  destruct (executeSkill_errors no_handlers (answers None)
              (parseSkillInvocation (get_signals_request None)) None
              (AdcpError "NOT_IMPLEMENTED" "Signals protocol not enabled")
              eq_refl) as [(m & params & H)|(_ & H & _)].
  - discriminate H.
  - exact H.
Defined.

(** A result of [executeSkill] carries an artifact exactly when the skill
    is build_creative (under either of its two names); the artifact is
    then named "creative_manifest". *)
Theorem artifact_only_for_build_creative (cfg : A2aServerConfig)
    (h : Handlers) (invocation : A2aSkillInvocation)
    (principal : option Principal) (result : SkillResult) :
  executeSkill cfg h invocation principal = Ok result →
  (is_Some (sr_artifact result)
   ↔ skill invocation = "build_creative"
     ∨ skill invocation = "creative.build_creative")
  ∧ (∀ name data, sr_artifact result = Some (name, data) →
                  name = "creative_manifest").
Proof.
  unfold executeSkill.
  destruct (route (skill invocation)) as [m|] eqn:Hr.
  - destruct (enabled cfg (protocol_of m)); [|done].
    destruct (h m (parameters invocation) principal) as [r|]; [|done].
    intros [= <-]. simpl. rewrite <- route_buildCreative, Hr.
    destruct m; simpl; split;
      try (split; [by intros [? ?]|by intros [= ?]]);
      try (intros ? ? [= ?]; done).
    split; [done|by eexists].
  - destruct (truthy_context (context invocation)) as [c|]; [|done].
    intros [_ Ha]%nl_result. rewrite Ha, <- route_buildCreative, Hr.
    split; [split; [by intros [? ?]|done]|done].
Qed.

Lemma artifact_only_for_build_creative_witness :
  ∃ result,
    executeSkill all_handlers builds
      (parseSkillInvocation build_creative_request) None = Ok result
    ∧ (is_Some (sr_artifact result)
       ↔ skill (parseSkillInvocation build_creative_request) = "build_creative"
         ∨ skill (parseSkillInvocation build_creative_request)
           = "creative.build_creative")
    ∧ is_Some (sr_artifact result).
Proof.
  eexists. split; [reflexivity|].
  edestruct (artifact_only_for_build_creative all_handlers builds
               (parseSkillInvocation build_creative_request) None)
    as [H _]; [reflexivity|].
  split; [exact H|]. apply H. left. reflexivity.
Defined.

(** For a skill name that is not routed, the natural-language fallback
    decides: whenever it returns, the status is [completed] whatever
    status the handler declared, and there is no artifact; and it never
    consults a handler other than [getSignals] and [getProducts]. *)
Theorem fallback_always_completed (cfg : A2aServerConfig) (h : Handlers)
    (invocation : A2aSkillInvocation) (principal : option Principal)
    (result : SkillResult) :
  route (skill invocation) = None →
  executeSkill cfg h invocation principal = Ok result →
  sr_status result = completed
  ∧ sr_artifact result = None
  ∧ (∀ h' : Handlers,
       (∀ p pr, h' getSignals p pr = h getSignals p pr) →
       (∀ p pr, h' getProducts p pr = h getProducts p pr) →
       executeSkill cfg h' invocation principal = Ok result).
Proof.
  intros Hr. unfold executeSkill. rewrite Hr.
  destruct (truthy_context (context invocation)) as [c|]; [|done].
  intros H. destruct (nl_result _ _ _ _ _ _ H) as [-> ->].
  split_and!; try done.
  intros h' Hs Hp. revert H. unfold handleNaturalLanguageRequest.
  rewrite Hs, Hp. done.
Qed.

Lemma fallback_always_completed_witness :
  route (skill (parseSkillInvocation chat_request)) = None
  ∧ ∃ result,
      executeSkill signals_only hesitates
        (parseSkillInvocation chat_request) None = Ok result
      ∧ sr_status result = completed
      ∧ sr_artifact result = None.
Proof.
  split; [reflexivity|]. eexists. split; [reflexivity|].
  edestruct (fallback_always_completed signals_only hesitates
               (parseSkillInvocation chat_request) None)
    as (H1 & H2 & _); [reflexivity|reflexivity|].
  split; [exact H1|exact H2].
Defined.

(** Every skill of the agent card can be executed: its name is routed by
    [executeSkill] to a handler of a configured protocol, whose domain is
    in the card; so invoking it gives the handler's own outcome and never
    the engine's NOT_IMPLEMENTED. *)
Theorem advertised_skills_are_routed (ident : AgentIdentity)
    (cfg : A2aServerConfig) (sk : A2aSkill) :
  sk ∈ card_skills (getAgentCard ident cfg) →
  ∃ m,
    route (sk_name sk) = Some m
    ∧ enabled cfg (protocol_of m) = true
    ∧ domain_of (protocol_of m) ∈ card_domains (getAgentCard ident cfg)
    ∧ (∀ h invocation principal,
         skill invocation = sk_name sk →
         match h m (parameters invocation) principal with
         | Ok r => ∃ result, executeSkill cfg h invocation principal = Ok result
                            ∧ sr_status result = default completed (hr_status r)
         | Throw e => executeSkill cfg h invocation principal = Throw e
         end).
Proof.
  unfold getAgentCard, initializeSkills. cbn [card_skills card_domains].
  intros Hin.
  assert (∃ m, route (sk_name sk) = Some m
               ∧ enabled cfg (protocol_of m) = true
               ∧ domain_of (protocol_of m)
                 ∈ (if has_signals cfg then ["signals"] else [])
                   ++ (if has_mediaBuy cfg then ["media_buy"] else [])
                   ++ (if has_creative cfg then ["creative"] else []))
    as (m & Hr & Hen & Hdom).
  { destruct cfg as [[] [] []]; cbn [has_signals has_mediaBuy has_creative] in *;
      simpl in Hin;
      repeat match type of Hin with
             | _ ∈ _ :: _ => apply elem_of_cons in Hin as [->|Hin]
             | _ ∈ [] => by apply elem_of_nil in Hin
             end;
      (eexists; split; [reflexivity|]; split; [reflexivity|];
       simpl; set_solver). }
  exists m. split_and!; try done.
  intros h invocation principal Hsk. unfold executeSkill.
  rewrite Hsk, Hr, Hen.
  destruct (h m (parameters invocation) principal) as [r|e]; [|done].
  by eexists.
Qed.

Lemma advertised_skills_are_routed_witness :
  {| sk_name := "activate_signal";
     sk_description := "Deploy a signal to specific platforms or sales agents";
     sk_examples := ["Activate the luxury auto segment on The Trade Desk"] |}
    ∈ card_skills (getAgentCard some_agent signals_only)
  ∧ ∃ m, route "activate_signal" = Some m
         ∧ enabled signals_only (protocol_of m) = true.
Proof.
  assert ({| sk_name := "activate_signal";
             sk_description :=
               "Deploy a signal to specific platforms or sales agents";
             sk_examples :=
               ["Activate the luxury auto segment on The Trade Desk"] |}
            ∈ card_skills (getAgentCard some_agent signals_only)) as Hin.
  { cbn. apply elem_of_cons. right. apply elem_of_cons. left. reflexivity. }
  split; [exact Hin|].
  destruct (advertised_skills_are_routed some_agent signals_only _ Hin)
    as (m & H1 & H2 & _).
  exists m. split; [exact H1|exact H2].
Defined.

(* ===================================================================== *)
(** ** The success path of an execution *)
(* ===================================================================== *)

(** When the handler returns, the resumed execution leaves [pending],
    gives the task the status that the result declares (with the message
    "Task completed successfully" only for [completed]), appends to its
    messages one agent message made of the result's text and data,
    appends the artifact if there is one, and calls every listener of the
    task with the artifact event (if any), the message event and the
    complete event, in that order. *)
Theorem exec_done_success (i : nat) (h : Handlers) (z : Stamps) (s : Server)
    (ex : Execution) (t : A2aTask) (result : SkillResult) :
  pending s !! i = Some ex →
  tasks s !! ex_task ex = Some t →
  id t = ex_task ex →
  executeSkill (config s) h (parseSkillInvocation (ex_request ex))
    (ex_principal ex) = Ok result →
  ∃ s' t',
    exec_done i h z s = (Ok (), s')
    ∧ pending s' = delete i (pending s)
    ∧ tasks s' !! ex_task ex = Some t'
    ∧ state (status t') = sr_status result
    ∧ (st_message (status t') = Some "Task completed successfully"
       ↔ sr_status result = completed)
    ∧ messages t'
      = messages t
        ++ [ {| role := agent;
                parts := [TextPart (sr_message result);
                          DataPart (sr_data result) None];
                msg_metadata :=
                  Some {| mm_timestamp := Some (msg_timestamp z);
                          mm_message_id := Some ("msg-" +:+ msg_uuid z);
                          mm_correlation_id := None |} |} ]
    ∧ artifacts t'
      = artifacts t
        ++ match sr_artifact result with
           | Some (name, data) => [result_artifact name data z]
           | None => []
           end
    ∧ delivered s'
      = delivered s
        ++ broadcasts (listeners_of (ex_task ex) s) (success_events result z t).
Proof.
  intros Hi Ht Hid He.
  exists (succeeded_server (ex_task ex) result z (ex_webhook ex) t
            (set_pending (delete i) s)),
         (finished_task result z t).
  split; [by apply exec_done_return|].
  unfold succeeded_server.
  rewrite success_broadcasts by done.
  unfold with_webhook, finished_task, with_artifact.
  split; [|split; [|split; [|split; [|split; [|split]]]]].
  - by destruct (ex_webhook ex).
  - destruct (ex_webhook ex); simpl; by rewrite lookup_insert_eq.
  - done.
  - simpl. case_decide as Hst; split; done.
  - by destruct (sr_artifact result) as [[name data]|].
  - destruct (sr_artifact result) as [[name data]|]; simpl; [done|].
    by rewrite app_nil_r.
  - by destruct (ex_webhook ex).
Qed.

Lemma exec_done_success_witness :
  pending working_server !! 0
  = Some (new_execution (get_signals_request None) None "1")
  ∧ tasks working_server !! "task-1" = Some working_task
  ∧ ∃ s' t',
      exec_done 0 (answers (Some submitted)) stamps0 working_server
      = (Ok (), s')
      ∧ pending s' = []
      ∧ tasks s' !! "task-1" = Some t'
      ∧ state (status t') = submitted
      ∧ length (messages t') = 2.
Proof.
  split; [reflexivity|]. split; [reflexivity|].
  destruct (exec_done_success 0 (answers (Some submitted)) stamps0
              working_server
              (new_execution (get_signals_request None) None "1")
              working_task
              {| sr_status := submitted; sr_message := "ok";
                 sr_data := Js.pick ["signals"] (<["signals" := JArr []]> ∅);
                 sr_artifact := None |}
              eq_refl eq_refl eq_refl eq_refl)
    as (s' & t' & H1 & H2 & H3 & H4 & _ & H6 & _).
  exists s', t'.
  split; [exact H1|]. split; [rewrite H2; reflexivity|].
  split; [exact H3|]. split; [exact H4|]. rewrite H6. reflexivity.
Defined.

(** In a reachable server a task is stored under its own id: Get Task on
    an id answers null or a response that carries that very id, with the
    task's messages and artifacts. *)
Theorem getTask_answers_for_the_id (cfg : A2aServerConfig) (s : Server)
    (k : string) :
  reachable cfg s →
  (getTask k s).2 = s
  ∧ match (getTask k s).1 with
    | Ok None => tasks s !! k = None
    | Ok (Some r) =>
        task_id r = k
        ∧ ∃ t, tasks s !! k = Some t
               ∧ resp_status r = status t
               ∧ resp_messages r = Some (messages t)
               ∧ resp_artifacts r = Some (artifacts t)
    | Throw _ => False
    end.
Proof.
  intros Hreach%reachable_tasks_wf. rewrite getTask_eq. cbn [fst snd].
  split; [done|].
  destruct (tasks s !! k) as [t|] eqn:Ht; simpl; [|done].
  split; [by apply (wf_ids _ Hreach)|]. by exists t.
Qed.

Lemma getTask_answers_for_the_id_witness :
  reachable all_handlers working_server
  ∧ (getTask "task-1" working_server).2 = working_server
  ∧ (task_id <$> default None
       match (getTask "task-1" working_server).1 with
       | Ok r => Some r
       | Throw _ => None
       end) = Some "task-1".
Proof.
  split; [apply working_server_reachable|].
  destruct (getTask_answers_for_the_id all_handlers working_server "task-1"
              working_server_reachable) as [H _].
  split; [exact H|reflexivity].
Defined.

(** A request that names no skill and ends with a non-empty text Part is
    never refused by the engine: it goes to the natural-language
    fallback, which fails only if the handler it consults throws. *)
Theorem free_text_request_is_answered (cfg : A2aServerConfig)
    (h : Handlers) (request : A2aTaskRequest) (principal : option Principal)
    (c : string) :
  req_skill request = None ∨ req_skill request = Some "" →
  last (text_parts (req_parts request)) = Some c →
  c ≠ "" →
  (∀ m p, ∃ r, h m p principal = Ok r) →
  ∃ result,
    executeSkill cfg h (parseSkillInvocation request) principal = Ok result
    ∧ sr_status result = completed.
Proof.
  intros Hskill Hlast Hc Hh.
  assert (skill (parseSkillInvocation request) = "default") as Hdef.
  { unfold parseSkillInvocation, request_skill. simpl.
    by destruct Hskill as [-> | ->]. }
  destruct (executeSkill cfg h (parseSkillInvocation request) principal)
    as [result|e] eqn:He.
  - exists result. split; [done|].
    eapply fallback_always_completed_aux; [|exact He]. by rewrite Hdef.
  - exfalso. apply executeSkill_errors_aux in He
      as [(m & p & Hthrow)|[(m & Hm & _)|[_ Hnone]]].
    + destruct (Hh m p) as [r Hr]. congruence.
    + by rewrite Hdef in Hm.
    + unfold parseSkillInvocation in Hnone. simpl in Hnone.
      rewrite parse_context, Hlast in Hnone. simpl in Hnone.
      by destruct c.
Qed.

Lemma free_text_request_is_answered_witness :
  ∃ result,
    executeSkill signals_only (answers None)
      (parseSkillInvocation chat_request) None = Ok result
    ∧ sr_status result = completed.
Proof.
  apply (free_text_request_is_answered signals_only (answers None)
           chat_request None "Which AUDIENCE segments do you have?").
  - left. reflexivity.
  - reflexivity.
  - discriminate.
  - intros m p. eexists. reflexivity.
Defined.

(* ===================================================================== *)
(** ** The two validators of adagents.json *)
(* ===================================================================== *)

Lemma required_nil ok error : required ok error = [] → ok = true.
Proof. by destruct ok. Qed.

Lemma errors_from_nil f index xs :
  errors_from f index xs = [] → ∀ x, x ∈ xs → ∃ i, f i x = [].
Proof.
  revert index. induction xs as [|x xs IH]; intros index H y Hy.
  - by apply elem_of_nil in Hy.
  - simpl in H. apply app_eq_nil in H as [Hx Hxs].
    apply elem_of_cons in Hy as [->|Hy]; [by exists index|by eapply IH].
Qed.

Lemma agent_errors_nil index agent :
  agent_errors index agent = [] →
  agent_shape_ok agent = true
  ∧ is_string (prop agent "authorized_for") = true
  ∧ (∃ sc, prop agent "scope" = JStr sc ∧ sc ∈ SCOPES).
Proof.
  unfold agent_errors, agent_shape_ok.
  destruct (is_object agent); [|done]. simpl.
  intros (Hurl%required_nil & (Hfor%required_nil & (Hsc & Hty)%app_eq_nil)
            %app_eq_nil)%app_eq_nil.
  destruct (prop agent "scope") as [| | | |sc| |] eqn:Hscope; try done.
  apply required_nil, bool_decide_eq_true in Hsc.
  rewrite Hfor. simpl.
  destruct (is_string (prop agent "url")),
           (is_string (prop agent "agent_url")); try done;
    (split_and!; [done|done|by exists sc]).
Qed.

(** The stand-alone validator is the stricter of the two: a document that
    [validateAdAgentsJson] finds valid passes the structural check that
    the discovery service applies to what it fetched; moreover each of
    its agents then has a string [authorized_for] and a scope among full,
    partial, exclusive and non_exclusive. *)
Theorem valid_document_passes_service_check (data : JValue) :
  (validateAdAgentsJson data).1 = true →
  (validateAdAgentsJson data).2 = []
  ∧ isValidAdAgentsJson data = true
  ∧ ∃ agents,
      prop data "authorized_agents" = JArr agents
      ∧ ∀ a, a ∈ agents →
             is_string (prop a "authorized_for") = true
             ∧ ∃ sc, prop a "scope" = JStr sc ∧ sc ∈ SCOPES.
Proof.
  unfold validateAdAgentsJson, isValidAdAgentsJson.
  destruct (is_object data); [|done]. cbn [negb fst snd].
  set (contact := js_or (prop data "contact") (prop data "publisher")).
  set (errors := _ ++ _).
  destruct errors as [|e errors'] eqn:He; [|done]. intros _.
  subst errors.
  apply app_eq_nil in He as [Hv%required_nil He].
  apply app_eq_nil in He as [Hc He].
  apply app_eq_nil in He as [_ Ha].
  rewrite Hv. cbn [negb].
  destruct (is_object contact); [|done]. cbn [negb] in *.
  apply required_nil in Hc. rewrite Hc. cbn [negb].
  destruct (prop data "authorized_agents") as [| | | | |agents|]; try done.
  split; [done|]. split.
  - apply forallb_forall. intros a Ha'%list_elem_of_In.
    destruct (errors_from_nil _ _ _ Ha a Ha') as [i Hi].
    by apply agent_errors_nil in Hi as [Hok _].
  - exists agents. split; [done|]. intros a Ha'.
    destruct (errors_from_nil _ _ _ Ha a Ha') as [i Hi].
    by apply agent_errors_nil in Hi as (_ & ? & ?).
Qed.

Lemma valid_document_passes_service_check_witness :
  (validateAdAgentsJson good_document).1 = true
  ∧ (validateAdAgentsJson good_document).2 = []
  ∧ isValidAdAgentsJson good_document = true.
Proof.
  split; [vm_compute; reflexivity|].
  destruct (valid_document_passes_service_check good_document)
    as (H1 & H2 & _); [vm_compute; reflexivity|].
  split; [exact H1|exact H2].
Defined.

(** The converse fails: the service accepts a legacy document that the
    validator refuses. *)
Lemma service_check_is_weaker :
  isValidAdAgentsJson legacy_document = true
  ∧ validateAdAgentsJson legacy_document
    = (false, ["authorized_agents[0].authorized_for is required"]).
Proof. split; vm_compute; reflexivity. Qed.

(** A document made by [generateAdAgentsJson] has a version and an agents
    array by construction: the errors the validator reports on it are
    exactly those of the contact, of the properties and of the agents
    that were given, in that order. *)
Theorem generated_document_errors (contact : JValue) (agents : list JValue)
    (properties tags schemaUrl : JValue) (now : string) :
  validateAdAgentsJson
    (generateAdAgentsJson contact agents properties tags schemaUrl now)
  = let errors :=
      (if is_object contact
       then required (is_string (prop contact "name")) "Missing contact.name"
       else ["Missing or invalid contact field"])
      ++ match properties with
         | JUndefined => []
         | JArr ps => errors_from property_errors 0 ps
         | _ => ["properties must be an array"]
         end
      ++ errors_from agent_errors 0 agents in
    (match errors with [] => true | _ => false end, errors).
Proof.
  unfold validateAdAgentsJson, generateAdAgentsJson.
  cbn [is_object negb prop].
  assert (∀ k v (m : JRecord), Js.field (<[k := v]> m) k = v) as Hget.
  { intros k v m. unfold Js.field. by rewrite lookup_insert_eq. }
  assert (∀ k k' v (m : JRecord),
            k ≠ k' → Js.field (<[k := v]> m) k' = Js.field m k') as Hskip.
  { intros k k' v m Hne. unfold Js.field. by rewrite lookup_insert_ne. }
  rewrite !(Hskip "$schema") by done.
  rewrite (Hget "version").
  rewrite !(Hskip "version") by done.
  rewrite (Hget "contact").
  rewrite !(Hskip "contact") by done.
  rewrite (Hget "properties").
  rewrite !(Hskip "properties") by done.
  rewrite !(Hskip "tags") by done.
  rewrite (Hget "authorized_agents").
  rewrite (Hskip "authorized_agents") by done.
  rewrite (Hskip "last_updated") by done.
  cbn [is_string required app].
  unfold js_or.
  destruct (Js.truthy contact) eqn:Htr.
  - by destruct (is_object contact).
  - assert (is_object contact = false) as Hno by by destruct contact.
    rewrite Hno. unfold Js.field. rewrite lookup_empty. done.
Qed.

(* ===================================================================== *)
(** ** The cache of the discovery service *)
(* ===================================================================== *)

Lemma getAdAgentsJson_hit ttl now now' fetchFn domain cache e :
  cache !! domain = Some e → (now < ce_expiresAt e)%Z →
  getAdAgentsJson ttl now now' fetchFn domain cache = (Some (ce_data e), cache).
Proof.
  intros He Hlt. unfold getAdAgentsJson. rewrite He.
  by rewrite (proj2 (Z.ltb_lt _ _) Hlt).
Qed.

Lemma getAdAgentsJson_stale ttl now now' fetchFn domain cache e :
  cache !! domain = Some e → (ce_expiresAt e ≤ now)%Z →
  getAdAgentsJson ttl now now' fetchFn domain cache
  = fetch_and_cache ttl now' fetchFn domain cache.
Proof.
  intros He Hle. unfold getAdAgentsJson. rewrite He.
  by rewrite (proj2 (Z.ltb_ge _ _) Hle).
Qed.

Lemma fetch_and_cache_answer ttl now' fetchFn domain cache cache' :
  (fetch_and_cache ttl now' fetchFn domain cache).1
  = (fetch_and_cache ttl now' fetchFn domain cache').1.
Proof.
  unfold fetch_and_cache.
  destruct (fetchFn _) as [|[] [data|]]; try done.
  by destruct (isValidAdAgentsJson data).
Qed.

(** A document returned by [getAdAgentsJson] is held by the cache, and it
    is served again, whatever [fetch] would answer and without touching
    the cache, at every later time before the entry expires.  When the
    document came from a fetch, the entry expires [cacheTtlSeconds]
    seconds after the fetch completed.  From the time of expiry on the
    cached document is no longer served: the call fetches, and answers
    as a service without the entry would; it returns null and keeps the
    cache when the fetch is rejected, and returns the document then
    served, caching it for another [cacheTtlSeconds] seconds, when that
    one passes the structural check. *)
Theorem returned_document_is_cached (ttl now now' : Z)
    (fetchFn : string → FetchOutcome) (domain : string)
    (cache cache1 : gmap string CacheEntry) (d : JValue) :
  getAdAgentsJson ttl now now' fetchFn domain cache = (Some d, cache1) →
  ∃ e,
    cache1 !! domain = Some e
    ∧ ce_data e = d
    ∧ (cache1 = cache ∨ ce_expiresAt e = (now' + ttl * 1000)%Z)
    ∧ (∀ now2 now2' fetchFn2,
         (now2 < ce_expiresAt e)%Z →
         getAdAgentsJson ttl now2 now2' fetchFn2 domain cache1
         = (Some d, cache1))
    ∧ (∀ now2 now2' fetchFn2,
         (ce_expiresAt e ≤ now2)%Z →
         (getAdAgentsJson ttl now2 now2' fetchFn2 domain cache1).1
         = (getAdAgentsJson ttl now2 now2' fetchFn2 domain ∅).1
         ∧ (fetchFn2 (adagents_url domain) = FetchRejects →
            getAdAgentsJson ttl now2 now2' fetchFn2 domain cache1
            = (None, cache1))
         ∧ (∀ d2,
              fetchFn2 (adagents_url domain) = FetchResponse true (Some d2) →
              isValidAdAgentsJson d2 = true →
              getAdAgentsJson ttl now2 now2' fetchFn2 domain cache1
              = (Some d2,
                 <[domain := {| ce_data := d2;
                                ce_expiresAt := (now2' + ttl * 1000)%Z |}]>
                   cache1))).
Proof.
  intros Hget.
  assert (∃ e, cache1 !! domain = Some e ∧ ce_data e = d
               ∧ (cache1 = cache ∨ ce_expiresAt e = (now' + ttl * 1000)%Z))
    as (e & He & Hd & Hexp).
  { revert Hget. unfold getAdAgentsJson.
    set (fetched := fetch_and_cache ttl now' fetchFn domain cache).
    assert (fetched = (Some d, cache1) →
            ∃ e, cache1 !! domain = Some e ∧ ce_data e = d
                 ∧ (cache1 = cache ∨ ce_expiresAt e = (now' + ttl * 1000)%Z))
      as Hfetched.
    { subst fetched. unfold fetch_and_cache.
      destruct (fetchFn _) as [|[] [data|]]; try done.
      destruct (isValidAdAgentsJson data); [|done]. intros [= -> <-].
      eexists. split; [apply lookup_insert_eq|]. split; [done|by right]. }
    destruct (cache !! domain) as [e|] eqn:He; [|done].
    destruct (now <? ce_expiresAt e)%Z eqn:Hlt; [|done].
    intros [= <- <-]. exists e. split; [done|]. split; [done|by left]. }
  exists e. split_and!; try done.
  - intros now2 now2' fetchFn2 Hlt. rewrite <- Hd.
    by apply getAdAgentsJson_hit.
  - intros now2 now2' fetchFn2 Hle.
    rewrite (getAdAgentsJson_stale _ _ _ _ _ _ e He Hle).
    split_and!.
    + unfold getAdAgentsJson. rewrite lookup_empty.
      apply fetch_and_cache_answer.
    + intros Hf. unfold fetch_and_cache. by rewrite Hf.
    + intros d2 Hf Hv. unfold fetch_and_cache. by rewrite Hf, Hv.
Qed.

Lemma returned_document_is_cached_witness :
  ∃ cache1,
    getAdAgentsJson 3600 1000 1200 (serves good_document) "pub.example" ∅
    = (Some good_document, cache1)
    ∧ getAdAgentsJson 3600 3601199 3601300 (λ _, FetchRejects) "pub.example"
        cache1
      = (Some good_document, cache1)
    ∧ getAdAgentsJson 3600 3601200 3601300 (λ _, FetchRejects) "pub.example"
        cache1
      = (None, cache1).
Proof.
  eexists. split; [reflexivity|].
  edestruct (returned_document_is_cached 3600 1000 1200 (serves good_document)
               "pub.example" ∅) as (e & He & _ & Hexp & Hlater & Hstale);
    [reflexivity|].
  assert (ce_expiresAt e = 3601200%Z) as Hat.
  { destruct Hexp as [Hc | ->]; [|reflexivity].
    apply (f_equal (λ c : gmap string CacheEntry, c !! "pub.example")) in Hc.
    rewrite lookup_insert_eq, lookup_empty in Hc. discriminate. }
  split.
  - apply Hlater. rewrite Hat. reflexivity.
  - apply (Hstale 3601200%Z 3601300%Z (λ _, FetchRejects)).
    + rewrite Hat. intros H. discriminate.
    + reflexivity.
Defined.



Lemma cache_valid_step ttl c cache :
  cache_valid cache →
  cache_valid (discovery_step ttl c cache).2
  ∧ ∀ d, (discovery_step ttl c cache).1 = Some d →
         isValidAdAgentsJson d = true.
Proof.
  intros Hv. destruct c as [domain now now' fetchFn| |domain]; simpl.
  - unfold getAdAgentsJson.
    set (fetched := fetch_and_cache ttl now' fetchFn domain cache).
    assert (cache_valid fetched.2
            ∧ ∀ d, fetched.1 = Some d → isValidAdAgentsJson d = true)
      as Hfetched.
    { subst fetched. unfold fetch_and_cache.
      destruct (fetchFn _) as [|[] [data|]]; try done.
      destruct (isValidAdAgentsJson data) eqn:Hd; [|done]. simpl. split.
      - intros k e [[<- <-]|[_ He]]%lookup_insert_Some; [done|by eapply Hv].
      - by intros d [= <-]. }
    destruct (cache !! domain) as [e|] eqn:He; [|done].
    destruct (now <? ce_expiresAt e)%Z; [|done]. simpl.
    split; [done|]. intros d [= <-]. by eapply Hv.
  - split; [|done]. intros k e H. unfold clearCache in H.
    by rewrite lookup_empty in H.
  - split; [|done]. intros k e H. unfold clearDomainCache in H.
    apply lookup_delete_Some in H as [_ H]. by eapply Hv.
Qed.

(** Over any sequence of calls on a new service (lookups with any fetch
    outcomes at any times, cache clearings), every document that
    [getAdAgentsJson] returns, fetched or cached, has passed
    [isValidAdAgentsJson], and so has every document left in the cache. *)
Theorem service_returns_checked_documents (ttl : Z)
    (cs : list DiscoveryCall) :
  Forall (λ d, isValidAdAgentsJson d = true) (discovery_run ttl cs ∅).1
  ∧ cache_valid (discovery_run ttl cs ∅).2.
Proof.
  assert (∀ cache, cache_valid cache →
            Forall (λ d, isValidAdAgentsJson d = true)
              (discovery_run ttl cs cache).1
            ∧ cache_valid (discovery_run ttl cs cache).2) as H.
  { induction cs as [|c cs IH]; intros cache Hv; [by split|].
    simpl. destruct (cache_valid_step ttl c cache Hv) as [Hv' Hd].
    destruct (discovery_step ttl c cache) as [r cache'].
    destruct (IH cache' Hv') as [Hrs Hfinal].
    destruct (discovery_run ttl cs cache') as [rs cache''].
    simpl in *. split; [|done].
    destruct r as [d|]; [|done]. constructor; [by apply Hd|done]. }
  apply H. intros k e He. by rewrite lookup_empty in He.
Qed.

(** [clearDomainCache] forgets one domain and only that one: the next
    lookup of that domain answers as a new service would, and lookups of
    the other domains answer as before the clearing. *)
Theorem clearDomainCache_forgets_one_domain (ttl now now' : Z)
    (fetchFn : string → FetchOutcome) (domain : string)
    (cache : gmap string CacheEntry) :
  (getAdAgentsJson ttl now now' fetchFn domain
     (clearDomainCache domain cache)).1
  = (getAdAgentsJson ttl now now' fetchFn domain ∅).1
  ∧ ∀ other, other ≠ domain →
      (getAdAgentsJson ttl now now' fetchFn other
         (clearDomainCache domain cache)).1
      = (getAdAgentsJson ttl now now' fetchFn other cache).1.
Proof.
  unfold getAdAgentsJson, fetch_and_cache, clearDomainCache. split.
  - rewrite lookup_delete_eq, lookup_empty.
    destruct (fetchFn _) as [|[] [data|]]; try done.
    by destruct (isValidAdAgentsJson data).
  - intros other Hne. rewrite lookup_delete_ne by done.
    destruct (cache !! other) as [e|].
    + destruct (now <? ce_expiresAt e)%Z; [done|].
      destruct (fetchFn _) as [|[] [data|]]; try done.
      by destruct (isValidAdAgentsJson data).
    + destruct (fetchFn _) as [|[] [data|]]; try done.
      by destruct (isValidAdAgentsJson data).
Qed.

(* ===================================================================== *)
(** ** Inventory authorization *)
(* ===================================================================== *)

Lemma tag_denial_cases authResult options :
  match tag_denial authResult options with
  | Some d => authorized d = false
  | None => ∀ tag tags, given (opt_propertyTag options) = Some tag →
                        propertyTags authResult = Some tags → tag ∈ tags
  end.
Proof.
  unfold tag_denial.
  destruct (given (opt_propertyTag options)) as [tag|]; [|done].
  destruct (propertyTags authResult) as [tags|]; [|done].
  case_bool_decide; [|done]. by intros ? ? [= <-] [= <-].
Qed.

Lemma channel_denial_cases authResult options :
  match channel_denial authResult options with
  | Some d => authorized d = false
  | None => ∀ ch chs, given (opt_channel options) = Some ch →
                      channels authResult = Some chs → ch ∈ chs
  end.
Proof.
  unfold channel_denial.
  destruct (given (opt_channel options)) as [ch|]; [|done].
  destruct (channels authResult) as [chs|]; [|done].
  case_bool_decide; [|done]. by intros ? ? [= <-] [= <-].
Qed.

Lemma format_denial_cases authResult options :
  match format_denial authResult options with
  | Some d => authorized d = false
  | None => ∀ f fs, opt_formatId options = Some f →
                    formatIds authResult = Some fs → f ∈ fs
  end.
Proof.
  unfold format_denial.
  destruct (opt_formatId options) as [f|]; [|done].
  destruct (formatIds authResult) as [fs|]; [|done].
  destruct (existsb _ fs) eqn:Hf; [|done].
  intros ? ? [= <-] [= <-].
  apply existsb_exists in Hf as (f' & Hin%list_elem_of_In & Hf').
  apply andb_true_iff in Hf' as [H1%bool_decide_eq_true H2%bool_decide_eq_true].
  destruct f', f; simpl in *. by subst.
Qed.

(** [validateInventoryAuthorization] only ever narrows: its answer is
    either the result of [isAgentAuthorized] unchanged or a denial.  An
    unauthorized result, and an authorized one whose scope is full or
    exclusive, come back unchanged whatever inventory is asked for.
    Otherwise an authorized answer means that each requested item that
    has an authorized list is on it: the property tag among the property
    tags, the channel among the channels, the format among the formats. *)
Theorem inventory_check_only_narrows (authResult : AuthorizationResult)
    (options : InventoryOptions) :
  let answer := validateInventoryAuthorization authResult options in
  (answer = authResult ∨ authorized answer = false)
  ∧ (authorized authResult = false → answer = authResult)
  ∧ (auth_scope authResult = Some scope_full
     ∨ auth_scope authResult = Some scope_exclusive → answer = authResult)
  ∧ (authorized answer = true →
     auth_scope authResult ≠ Some scope_full →
     auth_scope authResult ≠ Some scope_exclusive →
     (∀ tag tags, given (opt_propertyTag options) = Some tag →
                  propertyTags authResult = Some tags → tag ∈ tags)
     ∧ (∀ ch chs, given (opt_channel options) = Some ch →
                  channels authResult = Some chs → ch ∈ chs)
     ∧ (∀ f fs, opt_formatId options = Some f →
                formatIds authResult = Some fs → f ∈ fs)).
Proof.
  intros answer. subst answer. unfold validateInventoryAuthorization.
  pose proof (tag_denial_cases authResult options) as Ht.
  pose proof (channel_denial_cases authResult options) as Hc.
  pose proof (format_denial_cases authResult options) as Hf.
  destruct (authorized authResult) eqn:Hauth; cbn [negb];
    [|split_and!; auto; congruence].
  destruct (auth_scope authResult) as [[]|] eqn:Hscope;
    try (split_and!; auto; congruence).
  all: destruct (tag_denial authResult options) as [d1|];
         [split_and!; [by right|done|by intros [?|?]|congruence]|].
  all: destruct (channel_denial authResult options) as [d2|];
         [split_and!; [by right|done|by intros [?|?]|congruence]|].
  all: destruct (format_denial authResult options) as [d3|];
         [split_and!; [by right|done|by intros [?|?]|congruence]|].
  all: split_and!; [by left|done|by intros [?|?]|by intros _ _ _].
Qed.

Lemma inventory_check_only_narrows_witness :
  validateInventoryAuthorization partial_grant sports_video = partial_grant
  ∧ authorized (validateInventoryAuthorization partial_grant sports_video)
    = true
  ∧ "sports" ∈ ["sports"; "news"].
Proof.
  destruct (inventory_check_only_narrows partial_grant sports_video)
    as (_ & _ & _ & H).
  destruct H as (Htag & _); [reflexivity|discriminate|discriminate|].
  split; [reflexivity|]. split; [reflexivity|].
  apply (Htag "sports" ["sports"; "news"]); reflexivity.
Defined.

(* ===================================================================== *)
(** ** Error objects and responses *)
(* ===================================================================== *)

(** An error detail survives the trip through an [AdcpError]:
    [fromErrorDetail] followed by [toErrorDetail] gives the detail back.
    The other way round an error keeps its code, message, field and
    suggestion, but comes back as a plain [AdcpError] without details,
    whatever subclass it was. *)
Theorem error_detail_round_trip :
  (∀ d, toErrorDetail (fromErrorDetail d) = d)
  ∧ (∀ e, let e' := fromErrorDetail (toErrorDetail e) in
          err_code e' = err_code e ∧ err_message e' = err_message e
          ∧ err_field e' = err_field e
          ∧ err_suggestion e' = err_suggestion e
          ∧ err_name e' = "AdcpError" ∧ err_details e' = None
          ∧ toErrorDetail e' = toErrorDetail e).
Proof.
  split.
  - by intros [].
  - intros e. by split_and!.
Qed.

Lemma or_string_nonempty a b : b ≠ "" → or_string a b ≠ "".
Proof.
  intros Hb. unfold or_string, truthy_context.
  destruct a as [[|c s]|]; simpl; done.
Qed.

(** The message of an error response is never empty: it is the message of
    the options when that one is given and not empty, else the message of
    the first error when there is one and it is not empty, else "An error
    occurred".  The errors are passed on unchanged. *)
Theorem error_response_message (errors : list ErrorDetail)
    (options : option ErrorResponseOptions) :
  let r := createErrorResponse errors options in
  er_message r ≠ ""
  ∧ er_errors r = errors
  ∧ (∀ m, options ≫= ero_message = Some m → m ≠ "" → er_message r = m)
  ∧ (truthy_context (options ≫= ero_message) = None →
     (∀ e es, errors = e :: es → ed_message e ≠ "" →
              er_message r = ed_message e)
     ∧ (errors = [] → er_message r = "An error occurred")
     ∧ (∀ e es, errors = e :: es → ed_message e = "" →
                er_message r = "An error occurred")).
Proof.
  intros r. subst r. unfold createErrorResponse. cbn [er_message er_errors].
  split_and!.
  - by apply or_string_nonempty, or_string_nonempty.
  - done.
  - intros m Hopt Hm. rewrite Hopt. unfold or_string, truthy_context.
    destruct m as [|c m']; [by destruct Hm|done].
  - intros Hnone.
    assert (∀ b, or_string (options ≫= ero_message) b = b) as Hb
      by (intros b; unfold or_string; by rewrite Hnone).
    rewrite Hb. split_and!.
    + intros e es -> He. simpl. unfold or_string, truthy_context. simpl.
      destruct (ed_message e) as [|c m']; [by destruct He|done].
    + intros ->. reflexivity.
    + intros e es -> He. simpl. unfold or_string, truthy_context. simpl.
      by rewrite He.
Qed.

Lemma group_in_ERROR_CODES (group : list string) :
  forallb (λ c, bool_decide (c ∈ ERROR_CODES)) group = true →
  ∀ c, c ∈ group → c ∈ ERROR_CODES.
Proof.
  intros H c Hc%list_elem_of_In.
  by apply (proj1 (forallb_forall _ _) H), bool_decide_eq_true in Hc.
Qed.

(** [getHttpStatusForError] always answers with one of the nine statuses
    400, 401, 403, 404, 429, 500, 501, 503, 504 (so with an HTTP error
    status), and with 500 for every string that is not an [ErrorCode]. *)
Theorem http_status_is_an_error_status (code : string) :
  getHttpStatusForError code ∈ [400; 401; 403; 404; 429; 500; 501; 503; 504]%Z
  ∧ (400 ≤ getHttpStatusForError code < 600)%Z
  ∧ (code ∉ ERROR_CODES → getHttpStatusForError code = 500%Z).
Proof.
  split; [|split].
  - unfold getHttpStatusForError.
    repeat case_bool_decide;
      repeat first [apply list_elem_of_here | apply list_elem_of_further].
  - unfold getHttpStatusForError. repeat case_bool_decide; lia.
  - intros Hnot.
    assert (∀ group,
              forallb (λ c, bool_decide (c ∈ ERROR_CODES)) group = true →
              bool_decide (code ∈ group) = false) as Hg.
    { intros group Hgroup. apply bool_decide_eq_false. intros Hin.
      apply Hnot. by eapply group_in_ERROR_CODES. }
    assert (∀ c, bool_decide (c ∈ ERROR_CODES) = true →
                 bool_decide (code = c) = false) as Hc.
    { intros c Hin%bool_decide_eq_true. apply bool_decide_eq_false.
      by intros ->. }
    unfold getHttpStatusForError.
    rewrite (Hg HTTP_401), (Hg HTTP_403), (Hg HTTP_404), (Hg HTTP_400)
      by (vm_compute; reflexivity).
    rewrite (Hc "RATE_LIMITED"), (Hc "SERVICE_UNAVAILABLE"), (Hc "TIMEOUT"),
      (Hc "NOT_IMPLEMENTED") by (vm_compute; reflexivity).
    reflexivity.
Qed.

(** The statuses of the errors as they are constructed: 401 for an
    [AuthenticationError], 403 for an [AuthorizationError], 400 for a
    [ValidationError]; and a [NotFoundError], which takes its code from
    its caller, gets 404 only for the codes of the not-found group. *)
Theorem http_status_of_error_classes (message : string)
    (field suggestion : option string)
    (details : option (list ErrorDetail)) (code : string) :
  getHttpStatusForError
    (err_code (new_AuthenticationError message field suggestion)) = 401%Z
  ∧ getHttpStatusForError
      (err_code (new_AuthorizationError message field suggestion)) = 403%Z
  ∧ getHttpStatusForError
      (err_code (new_ValidationError message field suggestion details))
    = 400%Z
  ∧ (getHttpStatusForError
       (err_code (new_NotFoundError code message field suggestion)) = 404%Z
     ↔ (code ∈ HTTP_404)).
Proof.
  split_and!; try reflexivity.
  cbn [new_NotFoundError rename new_AdcpError err_code].
  unfold getHttpStatusForError.
  split.
  - repeat case_bool_decide; try done.
  - intros Hin.
    assert (forallb (λ c, negb (bool_decide (c ∈ HTTP_401))
                          && negb (bool_decide (c ∈ HTTP_403))) HTTP_404
            = true) as Hdisjoint by (vm_compute; reflexivity).
    pose proof (proj1 (forallb_forall _ _) Hdisjoint code
                  (proj1 (list_elem_of_In _ _) Hin)) as Hcode.
    apply andb_true_iff in Hcode as [H1 H3].
    apply negb_true_iff, bool_decide_eq_false in H1.
    apply negb_true_iff, bool_decide_eq_false in H3.
    rewrite (bool_decide_eq_false_2 _ H1), (bool_decide_eq_false_2 _ H3).
    by rewrite (bool_decide_eq_true_2 _ Hin).
Qed.
